(** * Logger: the event timer of [src/utilities/logger.h]

    A shallow embedding of the class [Logger] and the properties of its
    methods.  The class keeps four [std::map<std::string, double>]
    (start times, total times, per-step times, memory), three output
    files, and prints to [std::cout].

    - [double] is IEEE binary64: Rocq's primitive [float], whose operations
      are specified in [FloatAxioms].
    - [std::map<std::string, double>] is a finite map from strings, iterated
      in increasing key order ([std::less<std::string>]: bytes compared as
      unsigned numbers, a proper prefix first).
    - [std::cout] is a stream with the format state the class changes
      (field width, floatfield, precision) and the text written so far.
    - The text a stream produces for a [double] is the work of the C++
      library's [num_put] facet, which is no part of this class: the
      development is parametric in it (class [NumPut]). *)

From Stdlib Require Import ZArith Floats.
From stdpp Require Import gmap strings list fin_maps sorting pretty.

Open Scope string_scope.

(* ================================================================= *)
(** ** Doubles and the clock *)

Abbreviation double := float.

(** [struct timeval], as [gettimeofday] fills it. *)
Record timeval : Type := { tv_sec : Z; tv_usec : Z }.

(** The conversion of a [long] to [double]: the nearest binary64 value. *)
Definition double_of_long (z : Z) : double :=
  SF2Prim (binary_normalize prec emax z 0 false).

(** The literal [1e-6] is the binary64 value nearest to it. *)
Definition micro : double := 0x1.0c6f7a0b5ed8dp-20%float.

(** [get_time]: [double(tv.tv_sec + tv.tv_usec*1e-6)], from the [timeval]
    the system call returned. *)
Definition get_time (tv : timeval) : double :=
  (double_of_long (tv_sec tv) + double_of_long (tv_usec tv) * micro)%float.

(** Two doubles are the same value: identical, or equal as [==] has it,
    which adds that the zeros of the two signs are equal. *)
Definition same_value (x y : double) : Prop :=
  x = y ∨ (x =? y)%float = true.

(* ================================================================= *)
(** ** [Event]: [std::map<std::string, double>] *)

Abbreviation Event := (gmap string double).

(** The order of the keys of two entries. *)
Definition key_le (p q : string * double) : Prop := String.le p.1 q.1.

Definition key_lt (p q : string * double) : Prop :=
  String.le p.1 q.1 ∧ p.1 ≠ q.1.

Global Instance key_le_dec : RelDecision key_le.
Proof. intros p q. unfold key_le. apply _. Defined.

(** [begin() .. end()]: the entries in increasing key order. *)
Definition entries (m : Event) : list (string * double) :=
  merge_sort key_le (map_to_list m).

(** [m[k]]: the value at [k]; a missing key is inserted with [0.0]. *)
Definition subscript (m : Event) (k : string) : double * Event :=
  match m !! k with
  | Some v => (v, m)
  | None => (0%float, <[k := 0%float]> m)
  end.

(** [m[k] = v]. *)
Definition assign (m : Event) (k : string) (v : double) : Event :=
  let '(_, m') := subscript m k in <[k := v]> m'.

(** [m[k] += d]. *)
Definition add_assign (m : Event) (k : string) (d : double) : Event :=
  let '(v, m') := subscript m k in <[k := (v + d)%float]> m'.

(** [m[k] -= d]. *)
Definition sub_assign (m : Event) (k : string) (d : double) : Event :=
  let '(v, m') := subscript m k in <[k := (v - d)%float]> m'.

(** [for (E = m.begin(); E != m.end(); ++E) E->second = 0;] *)
Definition zero_all (m : Event) : Event :=
  foldl (λ acc kv, <[kv.1 := 0%float]> acc) m (entries m).

(* ================================================================= *)
(** ** Output streams *)

Definition tab : string := String (Ascii.ascii_of_nat 9) EmptyString.
Definition newline : string := String (Ascii.ascii_of_nat 10) EmptyString.
Definition space : Ascii.ascii := Ascii.ascii_of_nat 32.

Fixpoint fill (n : nat) : string :=
  match n with
  | O => EmptyString
  | S n' => String space (fill n')
  end.

(** A field of width [w]: the text after as many fill characters as it
    is short of [w] (the default adjustment and fill character, which the
    class never changes); a longer text is not cut. *)
Definition pad (w : nat) (s : string) : string :=
  fill (w - String.length s) +:+ s.

(** The text of a [double] under a floatfield ([true]: [std::fixed]) and a
    precision. *)
Class NumPut : Type := num_put : bool → nat → double → string.

(** [std::cout]: the format state and the text written so far. *)
Record ostream : Type := {
  os_width : nat;
  os_fixed : bool;
  os_precision : nat;
  os_text : string
}.

(** The stream manipulators and inserters the class uses.  A formatted
    insertion pads to the field width and resets the width to zero;
    [std::endl] writes a newline and leaves the width alone. *)
Definition setw (n : nat) (o : ostream) : ostream :=
  {| os_width := n; os_fixed := os_fixed o;
     os_precision := os_precision o; os_text := os_text o |}.

Definition fixed (o : ostream) : ostream :=
  {| os_width := os_width o; os_fixed := true;
     os_precision := os_precision o; os_text := os_text o |}.

Definition setprecision (n : nat) (o : ostream) : ostream :=
  {| os_width := os_width o; os_fixed := os_fixed o;
     os_precision := n; os_text := os_text o |}.

Definition put_str (s : string) (o : ostream) : ostream :=
  {| os_width := 0; os_fixed := os_fixed o;
     os_precision := os_precision o;
     os_text := os_text o +:+ pad (os_width o) s |}.

Definition put_double `{NumPut} (v : double) (o : ostream) : ostream :=
  put_str (num_put (os_fixed o) (os_precision o) v) o.

Definition endl (o : ostream) : ostream :=
  {| os_width := os_width o; os_fixed := os_fixed o;
     os_precision := os_precision o; os_text := os_text o +:+ newline |}.

(** [o << a << b]: insertions from left to right. *)
Notation "o << f" := (f o) (at level 40, left associativity, only parsing).

(** [std::ofstream]: the file it is bound to, whether it accepts output,
    and the text of the file.  The class applies no manipulator to its
    files, which therefore keep the format of a new stream: no field
    width, no floatfield, precision 6.  Output to a stream that did not
    open, or that was closed, is dropped. *)
Record ofstream : Type := {
  ofs_path : option string;
  ofs_open : bool;
  ofs_text : string
}.

(** A default-constructed [std::ofstream]. *)
Definition ofs_new : ofstream :=
  {| ofs_path := None; ofs_open := false; ofs_text := "" |}.

(** [f.open(path)] on a new stream; [ok] tells whether the file system
    let the file be created.  The file starts empty. *)
Definition ofs_open_path (path : string) (ok : bool) : ofstream :=
  {| ofs_path := Some path; ofs_open := ok; ofs_text := "" |}.

Definition ofs_close (f : ofstream) : ofstream :=
  {| ofs_path := ofs_path f; ofs_open := false; ofs_text := ofs_text f |}.

Definition ofs_put (s : string) (f : ofstream) : ofstream :=
  if ofs_open f
  then {| ofs_path := ofs_path f; ofs_open := true;
          ofs_text := ofs_text f +:+ s |}
  else f.

Definition ofs_put_double `{NumPut} (v : double) (f : ofstream) : ofstream :=
  ofs_put (num_put false 6 v) f.

Definition ofs_put_int (n : Z) (f : ofstream) : ofstream :=
  ofs_put (pretty n) f.

Definition ofs_endl (f : ofstream) : ofstream := ofs_put newline f.

(* ================================================================= *)
(** ** The class [Logger] *)

Record Logger : Type := {
  file : ofstream;        (* file to write the time spent *)
  stepFile : ofstream;    (* file to write the time spent for 1 step *)
  legendFile : ofstream;  (* file to write the name of the events *)
  tic : Event;            (* starting time of events *)
  timer : Event;          (* total time spent of events *)
  timeStep : Event;       (* time spent of events for 1 step *)
  memory : Event;         (* memory allocated for events *)
  printNow : bool         (* public flag *)
}.

(** The program state a method runs in: the object and [std::cout]. *)
Record Machine : Type := { this : Logger; cout : ostream }.

Definition with_files (f s l : ofstream) (L : Logger) : Logger :=
  {| file := f; stepFile := s; legendFile := l;
     tic := tic L; timer := timer L; timeStep := timeStep L;
     memory := memory L; printNow := printNow L |}.

Definition with_tic (m : Event) (L : Logger) : Logger :=
  {| file := file L; stepFile := stepFile L; legendFile := legendFile L;
     tic := m; timer := timer L; timeStep := timeStep L;
     memory := memory L; printNow := printNow L |}.

Definition with_timer (m : Event) (L : Logger) : Logger :=
  {| file := file L; stepFile := stepFile L; legendFile := legendFile L;
     tic := tic L; timer := m; timeStep := timeStep L;
     memory := memory L; printNow := printNow L |}.

Definition with_timeStep (m : Event) (L : Logger) : Logger :=
  {| file := file L; stepFile := stepFile L; legendFile := legendFile L;
     tic := tic L; timer := timer L; timeStep := m;
     memory := memory L; printNow := printNow L |}.

Definition with_memory (m : Event) (L : Logger) : Logger :=
  {| file := file L; stepFile := stepFile L; legendFile := legendFile L;
     tic := tic L; timer := timer L; timeStep := timeStep L;
     memory := m; printNow := printNow L |}.

Definition with_printNow (b : bool) (L : Logger) : Logger :=
  {| file := file L; stepFile := stepFile L; legendFile := legendFile L;
     tic := tic L; timer := timer L; timeStep := timeStep L;
     memory := memory L; printNow := b |}.

(** [Logger(){}]: nothing is opened and [printNow] is not initialised; [b]
    is the value it happens to hold. *)
Definition Logger_default (b : bool) : Logger :=
  {| file := ofs_new; stepFile := ofs_new; legendFile := ofs_new;
     tic := ∅; timer := ∅; timeStep := ∅; memory := ∅; printNow := b |}.

(** [Logger(std::string folder)]; [can_open] is the file system's answer
    for each path. *)
Definition Logger_open (folder : string) (can_open : string → bool) : Logger :=
  {| file := ofs_open_path (folder +:+ "/time") (can_open (folder +:+ "/time"));
     stepFile := ofs_open_path (folder +:+ "/profiling")
                               (can_open (folder +:+ "/profiling"));
     legendFile := ofs_open_path (folder +:+ "/profiling_legend")
                                 (can_open (folder +:+ "/profiling_legend"));
     tic := ∅; timer := ∅; timeStep := ∅; memory := ∅; printNow := false |}.

Section Methods.
Context `{NumPut}.

(** [startTimer(event)]; [tv] is what [gettimeofday] returns. *)
Definition startTimer (event : string) (tv : timeval) (L : Logger) : Logger :=
  with_tic (assign (tic L) event (get_time tv)) L.

(** [stopTimer(event, print)]. *)
Definition stopTimer (event : string) (print : bool) (tv : timeval)
    (M : Machine) : Machine :=
  let L := this M in
  let toc := get_time tv in
  (* timeStep[event] += toc - tic[event]; *)
  let '(t1, tic1) := subscript (tic L) event in
  let timeStep1 := add_assign (timeStep L) event (toc - t1)%float in
  (* timer[event] += toc - tic[event]; *)
  let '(t2, tic2) := subscript tic1 event in
  let timer1 := add_assign (timer L) event (toc - t2)%float in
  let L1 := with_timer timer1 (with_timeStep timeStep1 (with_tic tic2 L)) in
  if print then
    let '(v, timer2) := subscript timer1 event in
    {| this := with_timer timer2 L1;
       cout := cout M << put_str event << put_str " : " << put_double v
                      << endl |}
  else {| this := L1; cout := cout M |}.

(** [eraseTimer(event)]. *)
Definition eraseTimer (event : string) (L : Logger) : Logger :=
  with_timer (delete event (timer L)) L.

(** [resetTimer()]. *)
Definition resetTimer (L : Logger) : Logger :=
  with_timer (zero_all (timer L)) L.

(** [resetTimeStep()]. *)
Definition resetTimeStep (L : Logger) : Logger :=
  with_timeStep (zero_all (timeStep L)) L.

(** [allocMemory(event, bytes)]. *)
Definition allocMemory (event : string) (bytes : double) (L : Logger) : Logger :=
  with_memory (add_assign (memory L) event bytes) L.

(** [freeMemory(event, bytes)]. *)
Definition freeMemory (event : string) (bytes : double) (L : Logger) : Logger :=
  with_memory (sub_assign (memory L) event bytes) L.

(** [printTime(event)]. *)
Definition printTime (event : string) (M : Machine) : Machine :=
  let '(v, timer1) := subscript (timer (this M)) event in
  {| this := with_timer timer1 (this M);
     cout := cout M << put_str event << put_str " : " << put_double v
                    << endl |}.

(** [printMemory(event)]. *)
Definition printMemory (event : string) (M : Machine) : Machine :=
  let '(v, memory1) := subscript (memory (this M)) event in
  {| this := with_memory memory1 (this M);
     cout := cout M << put_str event << put_str " : " << put_double v
                    << endl |}.

(** One pass of the loop of [printAllTime] over the entry [kv]: the
    running total and the stream. *)
Definition printAllTime_row (acc : double * ostream) (kv : string * double)
    : double * ostream :=
  ((acc.1 + kv.2)%float,
   acc.2 << setw 24 << put_str kv.1 << setw 13 << fixed << setprecision 4
         << put_double kv.2 << endl).

Definition rule : string := "-------------------------------------".

(** [printAllTime()]. *)
Definition printAllTime (M : Machine) : Machine :=
  let totalTime := 0%float in
  let c := cout M << endl in
  let '(totalTime, c) :=
    foldl printAllTime_row (totalTime, c) (entries (timer (this M))) in
  let c := c << put_str rule << endl in
  let c := c << setw 24 << put_str "TOTAL" << setw 13 << fixed
             << setprecision 4 << put_double totalTime << endl in
  {| this := this M; cout := c |}.

(** [writeLegend()]. *)
Definition writeLegend (L : Logger) : Logger :=
  with_files (file L) (stepFile L)
    (foldl (λ f kv, f << ofs_put kv.1 << ofs_endl) (legendFile L)
           (entries (timer L)))
    L.

(** [writeTime()]. *)
Definition writeTime (L : Logger) : Logger :=
  with_files
    (foldl (λ f kv, f << ofs_put kv.1 << ofs_put " " << ofs_put_double kv.2
                      << ofs_endl)
           (file L) (entries (timer L)))
    (stepFile L) (legendFile L) L.

(** [writeTimeStep(n)]. *)
Definition writeTimeStep (n : Z) (L : Logger) : Logger :=
  let s := stepFile L << ofs_put_int n << ofs_put tab in
  let s := foldl (λ f kv, f << ofs_put_double kv.2 << ofs_put tab) s
                 (entries (timeStep L)) in
  let s := s << ofs_endl in
  with_files (file L) s (legendFile L) L.

(** [~Logger()]: the legend is written and the files are closed
    ([legendFile] by the destruction of the member). *)
Definition Logger_destroy (L : Logger) : Logger :=
  let L1 := writeLegend L in
  with_files (ofs_close (file L1)) (ofs_close (stepFile L1))
             (ofs_close (legendFile L1)) L1.

(** *** Runs of a program that uses the object *)

Inductive call : Type :=
| StartTimer (event : string) (tv : timeval)
| StopTimer (event : string) (print : bool) (tv : timeval)
| EraseTimer (event : string)
| ResetTimer
| ResetTimeStep
| AllocMemory (event : string) (bytes : double)
| FreeMemory (event : string) (bytes : double)
| PrintTime (event : string)
| PrintMemory (event : string)
| PrintAllTime
| WriteLegend
| WriteTime
| WriteTimeStep (n : Z)
| SetPrintNow (b : bool).   (* [logger.printNow = b;] the field is public *)

Definition on_this (f : Logger → Logger) (M : Machine) : Machine :=
  {| this := f (this M); cout := cout M |}.

Definition step (M : Machine) (c : call) : Machine :=
  match c with
  | StartTimer e tv => on_this (startTimer e tv) M
  | StopTimer e p tv => stopTimer e p tv M
  | EraseTimer e => on_this (eraseTimer e) M
  | ResetTimer => on_this resetTimer M
  | ResetTimeStep => on_this resetTimeStep M
  | AllocMemory e b => on_this (allocMemory e b) M
  | FreeMemory e b => on_this (freeMemory e b) M
  | PrintTime e => printTime e M
  | PrintMemory e => printMemory e M
  | PrintAllTime => printAllTime M
  | WriteLegend => on_this writeLegend M
  | WriteTime => on_this writeTime M
  | WriteTimeStep n => on_this (writeTimeStep n) M
  | SetPrintNow b => on_this (with_printNow b) M
  end.

Definition run (M : Machine) (cs : list call) : Machine := foldl step M cs.

End Methods.

(** *** The texts of the outputs *)

(** The lines of a list of names, one name per line. *)
Definition lines (ks : list string) : string :=
  foldr (λ k acc, k +:+ newline +:+ acc) "" ks.

(** The sum of the values of a list of entries, added in order from [0.0]. *)
Definition sum_values (es : list (string * double)) : double :=
  foldl (λ t kv, (t + kv.2)%float) 0%float es.

Section Texts.
Context `{NumPut}.

(** A row of the table of [printAllTime]. *)
Definition table_row (kv : string * double) : string :=
  pad 24 kv.1 +:+ pad 13 (num_put true 4 kv.2) +:+ newline.

Definition table_rows (es : list (string * double)) : string :=
  foldr (λ kv acc, table_row kv +:+ acc) "" es.

(** The columns of a line of the per-step file. *)
Definition step_columns (es : list (string * double)) : string :=
  foldr (λ kv acc, num_put false 6 kv.2 +:+ tab +:+ acc) "" es.

(** The lines of the aggregate-time file. *)
Definition time_lines (es : list (string * double)) : string :=
  foldr (λ kv acc, kv.1 +:+ " " +:+ num_put false 6 kv.2 +:+ newline +:+ acc)
        "" es.

End Texts.

(** A stand-in for the library's conversion, for running the model on
    concrete inputs: it has what the C++ library prints for a few values
    in the two formats the class uses (general notation with precision 6,
    fixed notation with 4 decimals). *)
Definition sample_num_put : NumPut := λ fx _ v,
  if (v =? 0)%float then (if fx then "0.0000" else "0")
  else if (v =? 1.25)%float then (if fx then "1.2500" else "1.25")
  else if (v =? 2.5)%float then (if fx then "2.5000" else "2.5")
  else if (v =? 3.75)%float then (if fx then "3.7500" else "3.75")
  else if (v =? 60)%float then (if fx then "60.0000" else "60")
  else "?".

(** A console in the state a program starts with. *)
Definition cout0 : ostream :=
  {| os_width := 0; os_fixed := false; os_precision := 6; os_text := "" |}.

(** A program for running the model: two events are timed, memory is
    counted, and a step is written and closed. *)
Definition sample_calls : list call :=
  [StartTimer "solve" {| tv_sec := 10; tv_usec := 0 |};
   StopTimer "solve" false {| tv_sec := 12; tv_usec := 500000 |};
   StartTimer "assemble" {| tv_sec := 13; tv_usec := 0 |};
   StopTimer "assemble" false {| tv_sec := 14; tv_usec := 250000 |};
   AllocMemory "mesh" 100%float;
   WriteTimeStep 1;
   ResetTimeStep].

(** An object with one event timed, in a program that has printed
    nothing yet. *)
Definition sample_machine : Machine :=
  {| this := with_timeStep (<["solve" := 2.5%float]> ∅)
               (with_timer (<["solve" := 2.5%float]> ∅)
                  (Logger_open "case" (λ _, true)));
     cout := cout0 |}.

(** Whether a call is [startTimer(e)]. *)
Definition starts (e : string) (c : call) : bool :=
  match c with
  | StartTimer e' _ => bool_decide (e' = e)
  | _ => false
  end.

(** The objects a constructor returns. *)
Inductive constructed : Logger → Prop :=
| constructed_default (b : bool) : constructed (Logger_default b)
| constructed_open (folder : string) (can_open : string → bool) :
    constructed (Logger_open folder can_open).

(** The event [e] is never passed to [startTimer] in the run [cs]. *)
Definition never_started (e : string) (cs : list call) : bool :=
  forallb (λ c, negb (starts e c)) cs.

Definition is_writeLegend (c : call) : bool :=
  match c with WriteLegend => true | _ => false end.

(** The run [cs] never calls [writeLegend]. *)
Definition no_writeLegend (cs : list call) : bool :=
  forallb (λ c, negb (is_writeLegend c)) cs.

(** What a run shows of the program: everything but [printNow]. *)
Definition observable (M : Machine)
    : ofstream * ofstream * ofstream * Event * Event * Event * Event * ostream :=
  (file (this M), stepFile (this M), legendFile (this M),
   tic (this M), timer (this M), timeStep (this M), memory (this M), cout M).

(** *** Kinds of calls and growth of the outputs *)

Definition erases (c : call) : bool :=
  match c with EraseTimer _ => true | _ => false end.

Definition prints_time (c : call) : bool :=
  match c with PrintTime _ => true | _ => false end.

(** The methods that only produce output. *)
Definition output_only (c : call) : bool :=
  match c with
  | PrintAllTime | WriteLegend | WriteTime | WriteTimeStep _ => true
  | _ => false
  end.

(** The calls that do not ask for console output. *)
Definition quiet (c : call) : bool :=
  match c with
  | StopTimer _ print _ => negb print
  | PrintTime _ | PrintMemory _ | PrintAllTime => false
  | _ => true
  end.

(** The calls that may change [memory]. *)
Definition on_memory (c : call) : bool :=
  match c with
  | AllocMemory _ _ | FreeMemory _ _ | PrintMemory _ => true
  | _ => false
  end.

(** The call does not stop an event that has no entry in [m] yet. *)
Definition stops_known (m : Event) (c : call) : bool :=
  match c with
  | StopTimer e _ _ => bool_decide (e ∈ dom m)
  | _ => true
  end.

(** [f'] is [f] with more text at the end: the same file, as open as
    before. *)
Definition ofs_extends (f f' : ofstream) : Prop :=
  ofs_path f' = ofs_path f ∧ ofs_open f' = ofs_open f ∧
  ∃ s, ofs_text f' = ofs_text f +:+ s.

Definition os_extends (c c' : ostream) : Prop :=
  ∃ s, os_text c' = os_text c +:+ s.

(* ================================================================= *)
(** * Properties *)

(** ** Doubles *)

Lemma double_sub_zero (x : double) : (x - 0)%float = x.
Proof.
  apply Prim2SF_inj. rewrite sub_spec.
  change (Prim2SF 0%float) with (S754_zero false).
  destruct (Prim2SF x) as [[]| | |]; reflexivity.
Qed.

Lemma double_zero_add (x : double) : x ≠ (-0)%float → (0 + x)%float = x.
Proof.
  intros Hx. apply Prim2SF_inj. rewrite add_spec.
  change (Prim2SF 0%float) with (S754_zero false).
  destruct (Prim2SF x) as [[]| | |] eqn:E; try reflexivity.
  destruct Hx. apply Prim2SF_inj. now rewrite E.
Qed.

Lemma double_neg_zero_add (x : double) : (-0 + x)%float = x.
Proof.
  apply Prim2SF_inj. rewrite add_spec.
  change (Prim2SF (-0)%float) with (S754_zero true).
  destruct (Prim2SF x) as [[]| | |]; reflexivity.
Qed.

(** The doubles that compare equal to zero are the two zeros. *)
Lemma double_eqb_zero (z : double) :
  (z =? 0)%float = true → z = 0%float ∨ z = (-0)%float.
Proof.
  rewrite FloatAxioms.eqb_spec. change (Prim2SF 0%float) with (S754_zero false).
  intros Hz. rewrite <- (SF2Prim_Prim2SF z).
  destruct (Prim2SF z) as [[]|[]| |[] m e]; try discriminate Hz.
  - by right.
  - by left.
Qed.

(** Adding to zero gives the same value: the value itself, but for the
    negative zero, which becomes the positive one. *)
Lemma double_zero_add_same (x : double) : same_value (0 + x)%float x.
Proof.
  destruct (Prim2SF x) as [[]|s| |s m e] eqn:E.
  - rewrite <- (SF2Prim_Prim2SF x), E. by right.
  - rewrite <- (SF2Prim_Prim2SF x), E. by left.
  - left. apply Prim2SF_inj. by rewrite add_spec, E.
  - left. apply Prim2SF_inj. by rewrite add_spec, E.
  - left. apply Prim2SF_inj. by rewrite add_spec, E.
Qed.

(** Subtracting from the zero of either sign gives the same value. *)
Lemma double_zero_sub_same (b : double) :
  same_value (0 - b)%float (-0 - b)%float.
Proof.
  destruct (Prim2SF b) as [[]|s| |s m e] eqn:E.
  - rewrite <- (SF2Prim_Prim2SF b), E. by left.
  - rewrite <- (SF2Prim_Prim2SF b), E. by right.
  - left. apply Prim2SF_inj. by rewrite !sub_spec, E.
  - left. apply Prim2SF_inj. by rewrite !sub_spec, E.
  - left. apply Prim2SF_inj. by rewrite !sub_spec, E.
Qed.

(** Adding to a zero and then subtracting gives the value of the plain
    difference. *)
Lemma double_zero_add_sub_same (z a b : double) :
  (z =? 0)%float = true → same_value (z + a - b)%float (a - b)%float.
Proof.
  intros [-> | ->]%double_eqb_zero.
  - destruct (Prim2SF a) as [[]|s| |s m e] eqn:E.
    + rewrite <- (SF2Prim_Prim2SF a), E. apply double_zero_sub_same.
    + rewrite <- (SF2Prim_Prim2SF a), E. by left.
    + left. f_equal. apply Prim2SF_inj. by rewrite add_spec, E.
    + left. f_equal. apply Prim2SF_inj. by rewrite add_spec, E.
    + left. f_equal. apply Prim2SF_inj. by rewrite add_spec, E.
  - left. by rewrite double_neg_zero_add.
Qed.

(** Subtracting from the two zeros gives one double, but for [b] the
    positive zero, where the results are the zeros of the two signs. *)
Lemma double_zero_sub_cases (b : double) :
  (0 - b)%float = (-0 - b)%float ∨
  ((0 - b)%float = 0%float ∧ (-0 - b)%float = (-0)%float).
Proof.
  destruct (Prim2SF b) as [[]|s| |s m e] eqn:E.
  - rewrite <- (SF2Prim_Prim2SF b), E. by left.
  - rewrite <- (SF2Prim_Prim2SF b), E. by right.
  - left. apply Prim2SF_inj. by rewrite !sub_spec, E.
  - left. apply Prim2SF_inj. by rewrite !sub_spec, E.
  - left. apply Prim2SF_inj. by rewrite !sub_spec, E.
Qed.

(** Adding to a zero and then subtracting gives the double of the plain
    difference, but for one case: the positive zero where the plain
    difference is the negative one. *)
Lemma double_zero_add_sub_cases (z a b : double) :
  (z =? 0)%float = true →
  (z + a - b)%float = (a - b)%float ∨
  ((z + a - b)%float = 0%float ∧ (a - b)%float = (-0)%float).
Proof.
  intros [-> | ->]%double_eqb_zero.
  - destruct (Prim2SF a) as [[]|s| |s m e] eqn:E.
    + rewrite <- (SF2Prim_Prim2SF a), E. apply double_zero_sub_cases.
    + rewrite <- (SF2Prim_Prim2SF a), E. by left.
    + left. f_equal. apply Prim2SF_inj. by rewrite add_spec, E.
    + left. f_equal. apply Prim2SF_inj. by rewrite add_spec, E.
    + left. f_equal. apply Prim2SF_inj. by rewrite add_spec, E.
  - left. by rewrite double_neg_zero_add.
Qed.

(** ** Strings *)

Lemma app_nil_r (s : string) : s +:+ "" = s.
Proof.
  induction s as [|a s IH]; [done|].
  change (String a (s +:+ "") = String a s). by rewrite IH.
Qed.

Lemma app_assoc (s1 s2 s3 : string) : (s1 +:+ s2) +:+ s3 = s1 +:+ (s2 +:+ s3).
Proof.
  induction s1 as [|a s1 IH]; [done|].
  change (String a ((s1 +:+ s2) +:+ s3) = String a (s1 +:+ (s2 +:+ s3))).
  by rewrite IH.
Qed.

Lemma length_app (s1 s2 : string) :
  String.length (s1 +:+ s2) = String.length s1 + String.length s2.
Proof.
  induction s1 as [|a s1 IH]; [done|].
  change (S (String.length (s1 +:+ s2)) = S (String.length s1) + String.length s2).
  by rewrite IH.
Qed.

Lemma length_fill (n : nat) : String.length (fill n) = n.
Proof. induction n as [|n IH]; [done|]. cbn. by rewrite IH. Qed.

Lemma pad_0 (s : string) : pad 0 s = s.
Proof. done. Qed.

(** A field is as wide as asked, or as the text when that is longer. *)
Lemma length_pad (w : nat) (s : string) :
  String.length (pad w s) = w `max` String.length s.
Proof. unfold pad. rewrite length_app, length_fill. lia. Qed.

(** A text at least as long as the field is written as it is. *)
Lemma pad_ge (w : nat) (s : string) :
  (w ≤ String.length s)%nat → pad w s = s.
Proof.
  intros Hw. unfold pad. by replace (w - String.length s) with 0 by lia.
Qed.

(** ** [Event]: lookups and updates *)

Lemma subscript_value (m : Event) (k : string) :
  (subscript m k).1 = default 0%float (m !! k).
Proof. unfold subscript. by destruct (m !! k). Qed.

Lemma subscript_present (m : Event) (k : string) (v : double) :
  m !! k = Some v → subscript m k = (v, m).
Proof. unfold subscript. by intros ->. Qed.

Lemma subscript_absent (m : Event) (k : string) :
  m !! k = None → subscript m k = (0%float, <[k := 0%float]> m).
Proof. unfold subscript. by intros ->. Qed.

Lemma subscript_lookup (m : Event) (k : string) :
  (subscript m k).2 !! k = Some (default 0%float (m !! k)).
Proof.
  unfold subscript. destruct (m !! k) eqn:E; simpl; [done|].
  by rewrite lookup_insert_eq.
Qed.

Lemma subscript_lookup_ne (m : Event) (k k' : string) :
  k ≠ k' → (subscript m k).2 !! k' = m !! k'.
Proof.
  intros Hne. unfold subscript. destruct (m !! k); simpl; [done|].
  by rewrite lookup_insert_ne.
Qed.

(** Reading a key a second time finds what the first reading left. *)
Lemma subscript_again (m : Event) (k : string) :
  subscript (subscript m k).2 k = subscript m k.
Proof.
  unfold subscript at 2 3. destruct (m !! k) eqn:E; simpl.
  - by apply subscript_present.
  - apply subscript_present, lookup_insert_eq.
Qed.

Lemma assign_insert (m : Event) (k : string) (v : double) :
  assign m k v = <[k := v]> m.
Proof.
  unfold assign, subscript. destruct (m !! k); [done|].
  by rewrite insert_insert_eq.
Qed.

Lemma add_assign_insert (m : Event) (k : string) (d : double) :
  add_assign m k d = <[k := (default 0 (m !! k) + d)%float]> m.
Proof.
  unfold add_assign, subscript. destruct (m !! k); simpl; [done|].
  by rewrite insert_insert_eq.
Qed.

Lemma sub_assign_insert (m : Event) (k : string) (d : double) :
  sub_assign m k d = <[k := (default 0 (m !! k) - d)%float]> m.
Proof.
  unfold sub_assign, subscript. destruct (m !! k); simpl; [done|].
  by rewrite insert_insert_eq.
Qed.

(** ** [Event]: iteration *)

Global Instance key_le_total : Total key_le.
Proof. intros p q. unfold key_le. apply total, _. Qed.

Global Instance key_le_trans : Transitive key_le.
Proof. intros p q r. unfold key_le. apply transitivity. Qed.

Lemma entries_Permutation (m : Event) : entries m ≡ₚ map_to_list m.
Proof. apply merge_sort_Permutation. Qed.

Lemma entries_Sorted (m : Event) : Sorted key_le (entries m).
Proof. apply (Sorted_merge_sort key_le). Qed.

Lemma elem_of_entries (m : Event) (k : string) (v : double) :
  (k, v) ∈ entries m ↔ m !! k = Some v.
Proof. by rewrite entries_Permutation, elem_of_map_to_list. Qed.

Lemma NoDup_fst_entries (m : Event) : NoDup (entries m).*1.
Proof. rewrite entries_Permutation. apply NoDup_fst_map_to_list. Qed.

(** The iteration visits the keys of the map, each once. *)
Lemma elem_of_fst_entries (m : Event) (k : string) :
  k ∈ (entries m).*1 ↔ k ∈ dom m.
Proof.
  rewrite elem_of_dom, list_elem_of_fmap. split.
  - intros [[k' v] [-> Hin]]. apply elem_of_entries in Hin. by exists v.
  - intros [v Hv]. exists (k, v). split; [done|]. by apply elem_of_entries.
Qed.

Lemma entries_empty : entries ∅ = [].
Proof.
  apply Permutation_nil_r. symmetry.
  by rewrite entries_Permutation, map_to_list_empty.
Qed.

(** The entries of a map are its only listing in key order. *)
Lemma entries_unique (m : Event) (l : list (string * double)) :
  l ≡ₚ map_to_list m → Sorted key_le l → l = entries m.
Proof.
  intros Hp Hs.
  apply (StronglySorted_unique_strong key_le).
  - intros [k1 v1] [k2 v2] H1 H2 Hle1 Hle2.
    assert (k1 = k2) as <- by (by apply (anti_symm String.le)).
    rewrite Hp in H1. rewrite entries_Permutation in H2.
    apply elem_of_map_to_list in H1, H2. congruence.
  - apply Sorted_StronglySorted; [apply _|done].
  - apply Sorted_StronglySorted; [apply _|apply entries_Sorted].
  - by rewrite Hp, entries_Permutation.
Qed.

(** The keys come in strictly increasing order. *)
Lemma entries_StronglySorted (m : Event) : StronglySorted key_lt (entries m).
Proof.
  pose proof (NoDup_fst_entries m) as Hnd.
  assert (StronglySorted key_le (entries m)) as Hs
    by (apply Sorted_StronglySorted; [apply _|apply entries_Sorted]).
  induction Hs as [|x l Hs IH Hall]; [constructor|].
  rewrite fmap_cons in Hnd. apply NoDup_cons in Hnd as [Hx Hnd].
  constructor; [by apply IH|].
  apply Forall_forall. intros y Hy. split.
  - by eapply Forall_forall in Hall.
  - intros Heq. apply Hx. rewrite Heq. by apply list_elem_of_fmap_2.
Qed.

Lemma entries_fmap (f : double → double) (m : Event) :
  entries (f <$> m) = prod_map id f <$> entries m.
Proof.
  symmetry. apply entries_unique.
  - by rewrite map_to_list_fmap, entries_Permutation.
  - apply (Sorted_fmap _ key_le key_le); [|apply entries_Sorted].
    by intros [] [].
Qed.

Lemma entries_delete_notin (m : Event) (k : string) :
  k ∉ (entries (delete k m)).*1.
Proof. rewrite elem_of_fst_entries, dom_delete_L, elem_of_difference, elem_of_singleton. tauto. Qed.

(** Setting the value of every entry to zero, one entry at a time. *)
Lemma foldl_insert_zero (l : list (string * double)) (m : Event) (k : string) :
  foldl (λ acc kv, <[kv.1 := 0%float]> acc) m l !! k =
  if decide (k ∈ l.*1) then Some 0%float else m !! k.
Proof.
  revert m. induction l as [|[k' v] l IH]; intros m; [done|].
  cbn [foldl]. rewrite IH, fmap_cons. cbn [fst].
  destruct (decide (k ∈ l.*1)) as [Hin|Hin].
  - rewrite decide_True; [done|]. by right.
  - destruct (decide (k' = k)) as [->|Hne].
    + rewrite lookup_insert_eq, decide_True; [done|]. by left.
    + rewrite lookup_insert_ne by done.
      rewrite decide_False; [done|]. rewrite elem_of_cons. by intros [->|?].
Qed.

Lemma zero_all_fmap (m : Event) : zero_all m = (λ _, 0%float) <$> m.
Proof.
  apply map_eq. intros k. unfold zero_all.
  rewrite foldl_insert_zero, lookup_fmap.
  case_decide as Hin; rewrite elem_of_fst_entries, elem_of_dom in Hin.
  - destruct Hin as [v ->]. done.
  - apply eq_None_not_Some in Hin. by rewrite Hin.
Qed.

Lemma dom_zero_all (m : Event) : dom (zero_all m) = dom m.
Proof. rewrite zero_all_fmap. apply dom_fmap_L. Qed.

Lemma entries_zero_all (m : Event) :
  entries (zero_all m) = (λ kv, (kv.1, 0%float)) <$> entries m.
Proof.
  rewrite zero_all_fmap, entries_fmap. apply list_fmap_ext. by intros ? [].
Qed.

(** The sum of zeros, added one after the other from zero, is zero. *)
Lemma sum_values_zero (es : list (string * double)) :
  sum_values ((λ kv, (kv.1, 0%float)) <$> es) = 0%float.
Proof.
  unfold sum_values. induction es as [|kv es IH]; [done|].
  rewrite fmap_cons. cbn [foldl snd].
  by change (0 + 0)%float with 0%float.
Qed.

(** ** File streams *)

Lemma ofs_put_closed (s : string) (f : ofstream) :
  ofs_open f = false → ofs_put s f = f.
Proof. unfold ofs_put. by intros ->. Qed.

Lemma ofs_put_text (s : string) (f : ofstream) :
  ofs_text (ofs_put s f) =
  if ofs_open f then ofs_text f +:+ s else ofs_text f.
Proof. unfold ofs_put. by destruct (ofs_open f). Qed.

Lemma ofs_put_open (s : string) (f : ofstream) :
  ofs_open (ofs_put s f) = ofs_open f.
Proof. unfold ofs_put. by destruct (ofs_open f) eqn:E. Qed.

Lemma ofs_put_path (s : string) (f : ofstream) :
  ofs_path (ofs_put s f) = ofs_path f.
Proof. unfold ofs_put. by destruct (ofs_open f). Qed.

Lemma ofs_put_nil (f : ofstream) : ofs_put "" f = f.
Proof.
  unfold ofs_put. destruct f as [p [] t]; simpl; [|done]. by rewrite app_nil_r.
Qed.

Lemma ofs_put_put (s1 s2 : string) (f : ofstream) :
  ofs_put s2 (ofs_put s1 f) = ofs_put (s1 +:+ s2) f.
Proof.
  unfold ofs_put. destruct f as [p [] t]; simpl; [|done]. by rewrite app_assoc.
Qed.

(** A loop that writes a text per entry writes the texts one after the
    other; [text a acc] is the text of entry [a] followed by [acc]. *)
Lemma foldl_ofs_put {A} (body : ofstream → A → ofstream)
    (text : A → string → string) (l : list A) (f : ofstream) :
  (∀ f a acc, ofs_put acc (body f a) = ofs_put (text a acc) f) →
  foldl body f l = ofs_put (foldr text "" l) f.
Proof.
  intros Hbody. revert f. induction l as [|a l IH]; intros f; simpl.
  - by rewrite ofs_put_nil.
  - by rewrite IH, Hbody.
Qed.

Lemma lines_fst (es : list (string * double)) :
  lines es.*1 = foldr (λ kv acc, kv.1 +:+ newline +:+ acc) "" es.
Proof. unfold lines. by rewrite foldr_fmap. Qed.

(** ** The console *)

Section Console.
Context `{NumPut}.

(** After a row of the table the stream is in fixed notation with four
    decimals, the field width is used up, and the row is at the end of the
    text. *)
Lemma printAllTime_row_spec (t : double) (c : ostream) (kv : string * double) :
  printAllTime_row (t, c) kv =
  ((t + kv.2)%float,
   {| os_width := 0; os_fixed := true; os_precision := 4;
      os_text := os_text c +:+ table_row kv |}).
Proof.
  unfold printAllTime_row, table_row, put_double, put_str, endl, setw, fixed,
    setprecision. simpl. by rewrite !app_assoc.
Qed.

Lemma foldl_printAllTime_row (es : list (string * double)) (t : double)
    (c : ostream) :
  foldl printAllTime_row (t, c) es =
  (foldl (λ t kv, (t + kv.2)%float) t es,
   match es with
   | [] => c
   | _ => {| os_width := 0; os_fixed := true; os_precision := 4;
             os_text := os_text c +:+ table_rows es |}
   end).
Proof.
  revert t c. induction es as [|kv es IH]; intros t c; [done|].
  cbn [foldl]. rewrite printAllTime_row_spec, IH. f_equal.
  destruct es as [|kv' es]; simpl.
  - by rewrite app_nil_r.
  - by rewrite !app_assoc.
Qed.

(** The text of a line ["<event> : <value>"]. *)
Lemma put_line_text (c : ostream) (event : string) (v : double) :
  os_text (c << put_str event << put_str " : " << put_double v << endl) =
  os_text c +:+ pad (os_width c) event +:+ " : " +:+
  num_put (os_fixed c) (os_precision c) v +:+ newline.
Proof.
  unfold put_double, put_str, endl. simpl. by rewrite !app_assoc.
Qed.

End Console.

(** ** [stopTimer] *)

Section StopTimer.
Context `{NumPut}.

(** [stopTimer] in one step: the start time is read (and a missing one
    created as zero), the same difference goes to both maps, and the new
    total is what gets printed. *)
Lemma stopTimer_spec (event : string) (print : bool) (tv : timeval)
    (M : Machine) :
  let L := this M in
  let delta := (get_time tv - default 0 (tic L !! event))%float in
  let step_total := (default 0 (timeStep L !! event) + delta)%float in
  let total := (default 0 (timer L !! event) + delta)%float in
  stopTimer event print tv M =
  {| this := with_timer (<[event := total]> (timer L))
               (with_timeStep (<[event := step_total]> (timeStep L))
                  (with_tic (subscript (tic L) event).2 L));
     cout := if print
             then cout M << put_str event << put_str " : "
                         << put_double total << endl
             else cout M |}.
Proof.
  intros L delta step_total total. unfold stopTimer. fold L.
  pose proof (subscript_value (tic L) event) as Hv.
  pose proof (subscript_again (tic L) event) as Ha.
  destruct (subscript (tic L) event) as [t1 tic1] eqn:E1.
  simpl in Hv, Ha. rewrite Ha. subst t1. fold delta.
  rewrite !add_assign_insert. fold step_total total.
  destruct print; [|done].
  by rewrite (subscript_present _ _ total) by apply lookup_insert_eq.
Qed.

End StopTimer.

(** ** The writers and the table *)

Section Writers.
Context `{NumPut}.

Lemma writeLegend_spec (L : Logger) :
  writeLegend L =
  with_files (file L) (stepFile L)
    (ofs_put (lines (entries (timer L)).*1) (legendFile L)) L.
Proof.
  unfold writeLegend. f_equal. rewrite lines_fst.
  apply (foldl_ofs_put _ (λ kv acc, kv.1 +:+ newline +:+ acc)).
  intros f kv acc. unfold ofs_endl. by rewrite !ofs_put_put, ?app_assoc.
Qed.

Lemma writeTime_spec (L : Logger) :
  writeTime L =
  with_files (ofs_put (time_lines (entries (timer L))) (file L))
    (stepFile L) (legendFile L) L.
Proof.
  unfold writeTime. f_equal.
  apply (foldl_ofs_put _
           (λ kv acc, kv.1 +:+ " " +:+ num_put false 6 kv.2 +:+ newline
                      +:+ acc)).
  intros f kv acc. unfold ofs_endl, ofs_put_double.
  by rewrite !ofs_put_put, ?app_assoc.
Qed.

Lemma writeTimeStep_spec (n : Z) (L : Logger) :
  writeTimeStep n L =
  with_files (file L)
    (ofs_put (pretty n +:+ tab +:+ step_columns (entries (timeStep L))
              +:+ newline) (stepFile L))
    (legendFile L) L.
Proof.
  unfold writeTimeStep. f_equal.
  rewrite (foldl_ofs_put _ (λ kv acc, num_put false 6 kv.2 +:+ tab +:+ acc)).
  - unfold ofs_endl, ofs_put_int. fold (step_columns (entries (timeStep L))).
    by rewrite !ofs_put_put, ?app_assoc.
  - intros f kv acc. unfold ofs_put_double.
    by rewrite !ofs_put_put, ?app_assoc.
Qed.

(** The table of [printAllTime]: an empty line, the rows, a rule, and the
    row of the total.  The rule is a formatted output: it takes the field
    width the caller left on the stream when no row used it up. *)
Lemma printAllTime_spec (M : Machine) :
  let es := entries (timer (this M)) in
  let w := match es with [] => os_width (cout M) | _ => 0 end in
  printAllTime M =
  {| this := this M;
     cout := {| os_width := 0; os_fixed := true; os_precision := 4;
                os_text := os_text (cout M) +:+ newline +:+ table_rows es +:+
                           pad w rule +:+ newline +:+
                           pad 24 "TOTAL" +:+
                           pad 13 (num_put true 4 (sum_values es)) +:+
                           newline |} |}.
Proof.
  intros es w. unfold printAllTime. fold es.
  rewrite foldl_printAllTime_row. fold (sum_values es). f_equal.
  match goal with
  | |- ?c << setw 24 << _ << _ << _ << _ << _ << _ = _ =>
      pose proof (printAllTime_row_spec 0%float c ("TOTAL", sum_values es))
        as Hrow
  end.
  apply (f_equal snd) in Hrow. cbn [snd fst printAllTime_row] in Hrow.
  rewrite Hrow. subst w. clearbody es.
  destruct es as [|kv es'];
    unfold table_row, put_str, endl;
    cbn [os_width os_fixed os_precision os_text fst snd];
    by rewrite ?app_assoc.
Qed.

Lemma printTime_spec (e : string) (M : Machine) :
  printTime e M =
  {| this := with_timer (subscript (timer (this M)) e).2 (this M);
     cout := cout M << put_str e << put_str " : "
                    << put_double (default 0%float (timer (this M) !! e))
                    << endl |}.
Proof.
  unfold printTime. rewrite <- subscript_value.
  by destruct (subscript (timer (this M)) e).
Qed.

Lemma printMemory_spec (e : string) (M : Machine) :
  printMemory e M =
  {| this := with_memory (subscript (memory (this M)) e).2 (this M);
     cout := cout M << put_str e << put_str " : "
                    << put_double (default 0%float (memory (this M) !! e))
                    << endl |}.
Proof.
  unfold printMemory. rewrite <- subscript_value.
  by destruct (subscript (memory (this M)) e).
Qed.

End Writers.

(** The cases of a call, each method replaced by what it does. *)
Ltac step_cases c :=
  destruct c; cbn [step]; unfold on_this; cbn [this cout];
  rewrite ?stopTimer_spec, ?printTime_spec, ?printMemory_spec,
    ?printAllTime_spec, ?writeLegend_spec, ?writeTime_spec,
    ?writeTimeStep_spec;
  unfold startTimer, eraseTimer, resetTimer, resetTimeStep, allocMemory,
    freeMemory;
  cbn [this cout file stepFile legendFile tic timer timeStep memory printNow
       with_files with_tic with_timer with_timeStep with_memory
       with_printNow].

(** ** Runs *)

Section Runs.
Context `{NumPut}.

Lemma run_nil (M : Machine) : run M [] = M.
Proof. done. Qed.

Lemma run_cons (M : Machine) (c : call) (cs : list call) :
  run M (c :: cs) = run (step M c) cs.
Proof. done. Qed.

Lemma run_app (M : Machine) (cs1 cs2 : list call) :
  run M (cs1 ++ cs2) = run (run M cs1) cs2.
Proof. apply foldl_app. Qed.

(** A property that every permitted call keeps holds after a run of
    permitted calls. *)
Lemma run_invariant (P : Machine → Prop) (ok : call → bool) :
  (∀ M c, ok c = true → P M → P (step M c)) →
  ∀ cs M, forallb ok cs = true → P M → P (run M cs).
Proof.
  intros Hstep. induction cs as [|c cs IH]; intros M Hok HP; [done|].
  simpl in Hok. apply andb_prop in Hok as [Hc Hcs].
  rewrite run_cons. apply IH; [done|]. by apply Hstep.
Qed.

(** Only [startTimer] and [stopTimer] touch the start times. *)
Lemma tic_step (M : Machine) (c : call) :
  tic (this (step M c)) =
  match c with
  | StartTimer e tv => <[e := get_time tv]> (tic (this M))
  | StopTimer e _ _ => (subscript (tic (this M)) e).2
  | _ => tic (this M)
  end.
Proof.
  destruct c; simpl; try done.
  - apply assign_insert.
  - by rewrite stopTimer_spec.
  - unfold printTime. by destruct (subscript _ _).
  - unfold printMemory. by destruct (subscript _ _).
  - unfold printAllTime. by destruct (foldl _ _ _).
Qed.

(** Only [writeLegend] touches the legend file. *)
Lemma legendFile_step (M : Machine) (c : call) :
  is_writeLegend c = false →
  legendFile (this (step M c)) = legendFile (this M).
Proof.
  destruct c; simpl; try done; intros _.
  - by rewrite stopTimer_spec.
  - unfold printTime. by destruct (subscript _ _).
  - unfold printMemory. by destruct (subscript _ _).
  - unfold printAllTime. by destruct (foldl _ _ _).
Qed.

(** An event that was never started has no start time, or the zero one an
    earlier [stopTimer] created. *)
Lemma tic_never_started (event : string) (cs : list call) (M : Machine) :
  never_started event cs = true →
  default 0%float (tic (this M) !! event) = 0%float →
  default 0%float (tic (this (run M cs)) !! event) = 0%float.
Proof.
  apply (run_invariant
           (λ M, default 0%float (tic (this M) !! event) = 0%float)).
  clear M. intros M c Hc HM. rewrite tic_step.
  destruct c as [e tv|e p tv| | | | | | | | | | | |]; try done.
  - simpl in Hc. apply negb_true_iff, bool_decide_eq_false in Hc.
    by rewrite lookup_insert_ne.
  - destruct (decide (e = event)) as [->|Hne].
    + by rewrite subscript_lookup.
    + by rewrite subscript_lookup_ne.
Qed.

Lemma legendFile_run (cs : list call) (M : Machine) :
  no_writeLegend cs = true →
  legendFile (this (run M cs)) = legendFile (this M).
Proof.
  intros Hcs.
  apply (run_invariant
           (λ M', legendFile (this M') = legendFile (this M))
           (λ c, negb (is_writeLegend c))); [|done|done].
  intros M' c Hc HM'. rewrite legendFile_step; [done|].
  by apply negb_true_iff.
Qed.

(** Every call acts on what a run shows without looking at [printNow]. *)
Lemma step_observable (M1 M2 : Machine) (c : call) :
  observable M1 = observable M2 →
  observable (step M1 c) = observable (step M2 c).
Proof.
  destruct M1 as [[f1 s1 l1 t1 tm1 ts1 m1 p1] c1].
  destruct M2 as [[f2 s2 l2 t2 tm2 ts2 m2 p2] c2].
  unfold observable. cbn [this cout file stepFile legendFile tic timer
                          timeStep memory].
  intros [= -> -> -> -> -> -> -> ->].
  destruct c; try done.
  - cbn [step]. by rewrite !stopTimer_spec.
  - cbn [step]. unfold printTime. cbn [this timer cout].
    by destruct (subscript tm2 event).
  - cbn [step]. unfold printMemory. cbn [this memory cout].
    by destruct (subscript m2 event).
  - cbn [step]. by rewrite !printAllTime_spec.
Qed.

Lemma run_observable (cs : list call) (M1 M2 : Machine) :
  observable M1 = observable M2 →
  observable (run M1 cs) = observable (run M2 cs).
Proof.
  revert M1 M2. induction cs as [|c cs IH]; intros M1 M2 Hobs; [done|].
  rewrite !run_cons. by apply IH, step_observable.
Qed.

End Runs.

(* ================================================================= *)
(** * Invariants of runs *)

(** ** Key sets and the order of iteration *)

Lemma dom_subscript (m : Event) (k : string) :
  dom (subscript m k).2 = {[k]} ∪ dom m.
Proof.
  unfold subscript. destruct (m !! k) as [v|] eqn:E; simpl.
  - apply elem_of_dom_2 in E. symmetry.
    by apply subseteq_union_1_L, singleton_subseteq_l.
  - apply dom_insert_L.
Qed.

Lemma length_entries (m : Event) : length (entries m) = size m.
Proof. by rewrite entries_Permutation, length_map_to_list. Qed.

Lemma fst_entries_Sorted (m : Event) : Sorted String.le (entries m).*1.
Proof.
  apply (Sorted_fmap _ key_le String.le); [done|apply entries_Sorted].
Qed.

(** The order in which a map is visited depends on its keys alone. *)
Lemma entries_keys_dom (m1 m2 : Event) :
  dom m1 = dom m2 → (entries m1).*1 = (entries m2).*1.
Proof.
  intros Hdom. apply (Sorted_unique String.le).
  - apply fst_entries_Sorted.
  - apply fst_entries_Sorted.
  - apply NoDup_Permutation; try apply NoDup_fst_entries.
    intros k. by rewrite !elem_of_fst_entries, Hdom.
Qed.

Lemma entries_insert_present (m : Event) (k : string) (v : double) :
  is_Some (m !! k) → (entries (<[k := v]> m)).*1 = (entries m).*1.
Proof.
  intros Hk. apply entries_keys_dom. rewrite dom_insert_L.
  apply elem_of_dom in Hk. by apply subseteq_union_1_L, singleton_subseteq_l.
Qed.

(** ** Growth of files and console *)

Lemma ofs_extends_refl (f : ofstream) : ofs_extends f f.
Proof. split_and!; try done. exists "". by rewrite app_nil_r. Qed.

Lemma ofs_extends_trans (f1 f2 f3 : ofstream) :
  ofs_extends f1 f2 → ofs_extends f2 f3 → ofs_extends f1 f3.
Proof.
  intros (Hp1 & Ho1 & s1 & Ht1) (Hp2 & Ho2 & s2 & Ht2).
  split_and!; [congruence|congruence|].
  exists (s1 +:+ s2). by rewrite Ht2, Ht1, app_assoc.
Qed.

Lemma ofs_extends_put (s : string) (f : ofstream) : ofs_extends f (ofs_put s f).
Proof.
  split_and!.
  - apply ofs_put_path.
  - apply ofs_put_open.
  - rewrite ofs_put_text. destruct (ofs_open f).
    + by exists s.
    + exists "". by rewrite app_nil_r.
Qed.

Lemma os_extends_refl (c : ostream) : os_extends c c.
Proof. exists "". by rewrite app_nil_r. Qed.

Lemma os_extends_trans (c1 c2 c3 : ostream) :
  os_extends c1 c2 → os_extends c2 c3 → os_extends c1 c3.
Proof.
  intros [s1 H1] [s2 H2]. exists (s1 +:+ s2). by rewrite H2, H1, app_assoc.
Qed.

Lemma with_timer_id (L : Logger) : with_timer (timer L) L = L.
Proof. by destruct L. Qed.

Lemma with_memory_id (L : Logger) : with_memory (memory L) L = L.
Proof. by destruct L. Qed.

Lemma with_files_id (L : Logger) :
  with_files (file L) (stepFile L) (legendFile L) L = L.
Proof. by destruct L. Qed.

Section Invariants.
Context `{NumPut}.

(** A property that every call keeps holds after every run. *)
Lemma run_invariant_all (P : Machine → Prop) :
  (∀ M c, P M → P (step M c)) → ∀ cs M, P M → P (run M cs).
Proof.
  intros Hstep cs M HP.
  apply (run_invariant P (λ _, true)); [auto| |done].
  by apply forallb_forall.
Qed.

(** Every call leaves each output with its text so far, and possibly
    more after it. *)
Lemma step_outputs_extend (M : Machine) (c : call) :
  ofs_extends (file (this M)) (file (this (step M c))) ∧
  ofs_extends (stepFile (this M)) (stepFile (this (step M c))) ∧
  ofs_extends (legendFile (this M)) (legendFile (this (step M c))) ∧
  os_extends (cout M) (cout (step M c)).
Proof.
  step_cases c; split_and!;
    first [ apply ofs_extends_refl | apply ofs_extends_put
          | apply os_extends_refl
          | by eexists; apply put_line_text
          | by eexists
          | idtac ].
  destruct print; [|apply os_extends_refl]. eexists. apply put_line_text.
Qed.

(** Output to a file that is not open changes nothing of it. *)
Lemma step_closed_files (M : Machine) (c : call) :
  (ofs_open (file (this M)) = false →
   file (this (step M c)) = file (this M)) ∧
  (ofs_open (stepFile (this M)) = false →
   stepFile (this (step M c)) = stepFile (this M)) ∧
  (ofs_open (legendFile (this M)) = false →
   legendFile (this (step M c)) = legendFile (this M)).
Proof. step_cases c; auto using ofs_put_closed. Qed.

(** No call but [eraseTimer] removes a key. *)
Lemma step_dom_mono (M : Machine) (c : call) :
  dom (tic (this M)) ⊆ dom (tic (this (step M c))) ∧
  dom (timeStep (this M)) ⊆ dom (timeStep (this (step M c))) ∧
  dom (memory (this M)) ⊆ dom (memory (this (step M c))) ∧
  (erases c = false →
   dom (timer (this M)) ⊆ dom (timer (this (step M c)))).
Proof.
  step_cases c;
    rewrite ?assign_insert, ?add_assign_insert, ?sub_assign_insert,
      ?dom_insert_L, ?dom_subscript, ?dom_zero_all;
    split_and!; try done; set_solver.
Qed.

(** The keys of [timer] and [timeStep] go together as long as no call
    touches one map alone. *)
Lemma step_timer_timeStep_dom (M : Machine) (c : call) :
  erases c = false → prints_time c = false →
  dom (timer (this M)) = dom (timeStep (this M)) →
  dom (timer (this (step M c))) = dom (timeStep (this (step M c))).
Proof.
  intros He Hp Hdom. revert He Hp.
  step_cases c; try done; intros _ _;
    rewrite ?dom_insert_L, ?dom_zero_all; by rewrite ?Hdom.
Qed.

(** The calls that only produce output leave the maps and the flag. *)
Lemma step_output_only (M : Machine) (c : call) :
  output_only c = true →
  (tic (this (step M c)), timer (this (step M c)),
   timeStep (this (step M c)), memory (this (step M c)),
   printNow (this (step M c))) =
  (tic (this M), timer (this M), timeStep (this M), memory (this M),
   printNow (this M)).
Proof. step_cases c; done. Qed.

Lemma step_memory (M : Machine) (c : call) :
  on_memory c = false → memory (this (step M c)) = memory (this M).
Proof. step_cases c; done. Qed.

Lemma step_quiet (M : Machine) (c : call) :
  quiet c = true → cout (step M c) = cout M.
Proof. step_cases c; try done. by destruct print. Qed.

End Invariants.


(* ================================================================= *)
(** * The properties of the specification *)

Section Specification.
Context `{NumPut}.

(** C1. An event that was never passed to [startTimer] has its start time
    read as zero by [stopTimer]: in any run from a new object that never
    starts the event, [stopTimer(event)] adds [now - 0] to
    [timer[event]] (and to [timeStep[event]]), and that difference is the
    clock value [now] itself.  For an event that has no total yet, the
    total read afterwards is the clock value. *)
Theorem stopTimer_never_started (L0 : Logger) (c0 : ostream)
    (cs : list call) (event : string) (print : bool) (tv : timeval) :
  constructed L0 →
  never_started event cs = true →
  let M := run {| this := L0; cout := c0 |} cs in
  let M' := stopTimer event print tv M in
  let now := get_time tv in
  let delta := (now - 0)%float in
  default 0%float (tic (this M) !! event) = 0%float ∧
  timer (this M') !! event =
    Some (default 0 (timer (this M) !! event) + delta)%float ∧
  timeStep (this M') !! event =
    Some (default 0 (timeStep (this M) !! event) + delta)%float ∧
  delta = now ∧
  (timer (this M) !! event = None →
   ∃ total, timer (this M') !! event = Some total ∧ same_value total now).
Proof.
  intros HL0 Hcs M M' now delta.
  assert (default 0%float (tic (this M) !! event) = 0%float) as Hzero.
  { apply tic_never_started; [done|]. by destruct HL0. }
  split; [done|]. subst M'. rewrite stopTimer_spec. simpl.
  rewrite Hzero, !lookup_insert_eq. fold now delta.
  assert (delta = now) as Hd by apply double_sub_zero.
  split_and!; try done.
  intros ->. eexists. split; [done|]. rewrite Hd. apply double_zero_add_same.
Qed.

(** C2. In every state [stopTimer(event, print)] adds the same difference
    [now - tic[event]] to [timeStep[event]] and to [timer[event]] (a
    missing entry counting as zero), and with [print] set it writes the
    line ["<event> : <timer[event]>"] to the console, and nothing
    otherwise. *)
Theorem stopTimer_adds_delta (event : string) (print : bool) (tv : timeval)
    (M : Machine) :
  let L := this M in
  let M' := stopTimer event print tv M in
  let delta := (get_time tv - default 0 (tic L !! event))%float in
  let total := (default 0 (timer L !! event) + delta)%float in
  timeStep (this M') =
    <[event := (default 0 (timeStep L !! event) + delta)%float]> (timeStep L) ∧
  timer (this M') = <[event := total]> (timer L) ∧
  cout M' =
    (if print
     then cout M << put_str event << put_str " : " << put_double total << endl
     else cout M) ∧
  os_text (cout M') =
    (if print
     then os_text (cout M) +:+ pad (os_width (cout M)) event +:+ " : " +:+
          num_put (os_fixed (cout M)) (os_precision (cout M)) total +:+ newline
     else os_text (cout M)) ∧
  memory (this M') = memory L ∧
  (file (this M'), stepFile (this M'), legendFile (this M')) =
    (file L, stepFile L, legendFile L).
Proof.
  intros L M' delta total. subst M'. rewrite stopTimer_spec. simpl.
  fold L delta total. repeat split.
  destruct print; [|done]. apply put_line_text.
Qed.

(** C3. In every state [writeTimeStep(n)] sends to the per-step file one
    line: [n], a tab, then the value of each entry of [timeStep] followed
    by a tab, in increasing key order, then the end of line.  The line is
    appended to the text of the file (when the file is open; output to a
    file that is not is dropped), and [timeStep] and everything else in
    the object stay as they are. *)
Theorem writeTimeStep_line (n : Z) (L : Logger) :
  let es := entries (timeStep L) in
  let line := pretty n +:+ tab +:+ step_columns es +:+ newline in
  let L' := writeTimeStep n L in
  stepFile L' = ofs_put line (stepFile L) ∧
  ofs_text (stepFile L') =
    (if ofs_open (stepFile L) then ofs_text (stepFile L) +:+ line
     else ofs_text (stepFile L)) ∧
  (∀ k v, (k, v) ∈ es ↔ timeStep L !! k = Some v) ∧
  StronglySorted key_lt es ∧
  timeStep L' = timeStep L ∧
  dom (timeStep L') = dom (timeStep L) ∧
  L' = with_files (file L) (stepFile L') (legendFile L) L.
Proof.
  intros es line L'. subst L'. rewrite writeTimeStep_spec. simpl.
  fold es line. split_and!; try done.
  - apply ofs_put_text.
  - intros k v. apply elem_of_entries.
  - apply entries_StronglySorted.
Qed.

(** C4. The destructor writes the legend itself: every key of [timer] at
    that time goes to the legend file, one name per line, in key order,
    each key once.  In particular a program that opened the legend file
    and never called [writeLegend] leaves a legend file whose text is
    exactly the list of the keys. *)
Theorem destroy_writes_legend (L : Logger) :
  let keys := (entries (timer L)).*1 in
  legendFile (Logger_destroy L) =
    ofs_close (ofs_put (lines keys) (legendFile L)) ∧
  ofs_text (legendFile (Logger_destroy L)) =
    (if ofs_open (legendFile L) then ofs_text (legendFile L) +:+ lines keys
     else ofs_text (legendFile L)) ∧
  (∀ k, k ∈ keys ↔ k ∈ dom (timer L)) ∧
  NoDup keys ∧
  (∀ (folder : string) (can_open : string → bool) (c0 : ostream)
     (cs : list call),
     can_open (folder +:+ "/profiling_legend") = true →
     no_writeLegend cs = true →
     L = this (run {| this := Logger_open folder can_open; cout := c0 |} cs) →
     ofs_text (legendFile (Logger_destroy L)) = lines keys).
Proof.
  intros keys.
  assert (legendFile (Logger_destroy L) =
          ofs_close (ofs_put (lines keys) (legendFile L))) as Hl.
  { unfold Logger_destroy. by rewrite writeLegend_spec. }
  assert (ofs_text (legendFile (Logger_destroy L)) =
          (if ofs_open (legendFile L) then ofs_text (legendFile L) +:+ lines keys
           else ofs_text (legendFile L))) as Ht.
  { rewrite Hl. apply ofs_put_text. }
  split_and!; try done.
  - intros k. apply elem_of_fst_entries.
  - apply NoDup_fst_entries.
  - intros folder can_open c0 cs Hopen Hcs HL.
    rewrite Ht, HL, legendFile_run by done. simpl. by rewrite Hopen.
Qed.

(** C5. [eraseTimer(e)] removes [e] from [timer] and changes nothing
    else: [tic], [timeStep], [memory] and the files are the same, so
    [memory[e]] and [timeStep[e]] still hold their values, while the rows
    of [printAllTime()] and the lines of [writeTime()] that follow are
    those of the remaining keys, [e] not among them. *)
Theorem eraseTimer_only_timer (e : string) (L : Logger) (c : ostream) :
  let L' := eraseTimer e L in
  let es := entries (timer L') in
  timer L' = delete e (timer L) ∧
  timer L' !! e = None ∧
  (∀ k, k ≠ e → timer L' !! k = timer L !! k) ∧
  tic L' = tic L ∧ timeStep L' = timeStep L ∧ memory L' = memory L ∧
  (file L', stepFile L', legendFile L', printNow L') =
    (file L, stepFile L, legendFile L, printNow L) ∧
  memory L' !! e = memory L !! e ∧
  timeStep L' !! e = timeStep L !! e ∧
  (e ∉ es.*1) ∧
  (∀ k, k ∈ es.*1 ↔ k ∈ dom (timer L) ∧ k ≠ e) ∧
  os_text (cout (printAllTime {| this := L'; cout := c |})) =
    os_text c +:+ newline +:+ table_rows es +:+
    pad (match es with [] => os_width c | _ => 0 end) rule +:+ newline +:+
    pad 24 "TOTAL" +:+ pad 13 (num_put true 4 (sum_values es)) +:+ newline ∧
  file (writeTime L') = ofs_put (time_lines es) (file L).
Proof.
  intros L' es. split_and!; try done.
  - apply lookup_delete_eq.
  - intros k Hk. by apply lookup_delete_ne.
  - apply entries_delete_notin.
  - intros k. subst es L'. unfold eraseTimer. cbn [timer with_timer].
    rewrite elem_of_fst_entries, dom_delete_L.
    rewrite elem_of_difference, elem_of_singleton. tauto.
  - by rewrite printAllTime_spec.
  - by rewrite writeTime_spec.
Qed.

(** C6. In every state [resetTimer()] sets the value of every key of
    [timer] to zero and keeps the keys; a [printAllTime()] that follows
    prints zero in the row of every key and zero in the row ["TOTAL"]. *)
Theorem resetTimer_zeroes (L : Logger) (c : ostream) :
  let L' := resetTimer L in
  let es := entries (timer L) in
  let zeros := (λ kv : string * double, (kv.1, 0%float)) <$> es in
  dom (timer L') = dom (timer L) ∧
  (∀ k, k ∈ dom (timer L) → timer L' !! k = Some 0%float) ∧
  (∀ k, k ∉ dom (timer L) → timer L' !! k = None) ∧
  entries (timer L') = zeros ∧
  zeros.*1 = es.*1 ∧
  sum_values zeros = 0%float ∧
  os_text (cout (printAllTime {| this := L'; cout := c |})) =
    os_text c +:+ newline +:+ table_rows zeros +:+
    pad (match es with [] => os_width c | _ => 0 end) rule +:+ newline +:+
    pad 24 "TOTAL" +:+ pad 13 (num_put true 4 0%float) +:+ newline ∧
  (∀ kv, kv ∈ zeros →
         table_row kv = pad 24 kv.1 +:+ pad 13 (num_put true 4 0%float)
                        +:+ newline) ∧
  L' = with_timer (timer L') L.
Proof.
  intros L' es zeros.
  assert (entries (timer L') = zeros) as He by apply entries_zero_all.
  assert (timer L' = zero_all (timer L)) as Ht by done.
  split_and!; try done; rewrite ?Ht.
  - apply dom_zero_all.
  - intros k [v Hv]%elem_of_dom. by rewrite zero_all_fmap, lookup_fmap, Hv.
  - intros k Hk%not_elem_of_dom. by rewrite zero_all_fmap, lookup_fmap, Hk.
  - subst zeros. rewrite <- list_fmap_compose. by apply list_fmap_ext.
  - apply sum_values_zero.
  - rewrite printAllTime_spec. cbn [this cout]. rewrite He.
    subst zeros. rewrite sum_values_zero.
    by destruct es.
  - intros [k v] Hin. subst zeros. apply list_elem_of_fmap in Hin.
    destruct Hin as [kv' [[= -> ->] _]]. done.
Qed.

(** C7 (amended). From an entry that is absent or zero,
    [allocMemory(e, a)] and then [freeMemory(e, b)] leave in [memory[e]]
    the double [(0 + a) - b] that the two updates compute.  It is [a - b]
    itself, but for the positive zero stored where [a - b] is the
    negative one; so [memory[e] == a - b] holds whenever [a - b] is a
    number, and when [a - b] is NaN (as for [a] and [b] both infinite)
    the entry is NaN, which [==] equates with nothing.  With 100 and 40
    the entry is 60.  Nothing keeps the entry from going below zero:
    [freeMemory] stores the difference whatever its sign, and with 40 and
    100 the entry is -60. *)
Theorem alloc_then_free (e : string) (a b : double) (L : Logger) :
  (default 0 (memory L !! e) =? 0)%float = true →
  let z := default 0%float (memory L !! e) in
  let L' := freeMemory e b (allocMemory e a L) in
  memory L' !! e = Some (z + a - b)%float ∧
  ((z + a - b)%float = (a - b)%float ∨
   ((z + a - b)%float = 0%float ∧ (a - b)%float = (-0)%float)) ∧
  (is_nan (a - b) = false → (z + a - b =? a - b)%float = true) ∧
  (is_nan (a - b) = true →
   is_nan (z + a - b) = true ∧ (z + a - b =? a - b)%float = false) ∧
  (a ≠ (-0)%float → memory L' !! e = Some (a - b)%float) ∧
  (∀ k, k ≠ e → memory L' !! k = memory L !! k) ∧
  memory (freeMemory e 40 (allocMemory e 100 L)) !! e = Some 60%float ∧
  memory (freeMemory e 100 (allocMemory e 40 L)) !! e = Some (-60)%float ∧
  (-60 <? 0)%float = true ∧
  (∀ (L1 : Logger) (x : double),
     memory (freeMemory e x L1) !! e =
     Some (default 0 (memory L1 !! e) - x)%float).
Proof.
  intros Hz z L'.
  assert (∀ x y, memory (freeMemory e y (allocMemory e x L)) !! e =
                 Some (z + x - y)%float) as Hval.
  { intros x y. unfold freeMemory, allocMemory. cbn [memory with_memory].
    by rewrite sub_assign_insert, add_assign_insert, !lookup_insert_eq. }
  pose proof (double_zero_add_sub_cases z a b Hz) as Hcases.
  split_and!.
  - apply Hval.
  - exact Hcases.
  - intros Hnan. destruct Hcases as [-> | [-> ->]].
    + unfold is_nan in Hnan. by apply negb_false_iff.
    + done.
  - intros Hnan. destruct Hcases as [-> | [_ Hneg]].
    + split; [done|]. unfold is_nan in Hnan. by apply negb_true_iff.
    + by rewrite Hneg in Hnan.
  - intros Ha. subst L'. rewrite Hval. do 2 f_equal.
    destruct (double_eqb_zero z Hz) as [-> | ->].
    + by apply double_zero_add.
    + apply double_neg_zero_add.
  - intros k Hk. subst L'. unfold freeMemory, allocMemory.
    cbn [memory with_memory].
    rewrite sub_assign_insert, add_assign_insert.
    by rewrite !lookup_insert_ne.
  - rewrite Hval. by destruct (double_eqb_zero z Hz) as [-> | ->].
  - rewrite Hval. by destruct (double_eqb_zero z Hz) as [-> | ->].
  - done.
  - intros L1 x. unfold freeMemory. cbn [memory with_memory].
    by rewrite sub_assign_insert, lookup_insert_eq.
Qed.

(** C8 (amended). In every state [printAllTime()] prints, after an empty
    line, one row per key of [timer] in key order, then a rule, then the
    row ["TOTAL"] with the sum of the values of [timer].  In a row the key
    is filled on the left to a field of at least 24 characters and the
    value, in fixed notation with 4 decimals, to a field of at least 13:
    a key longer than 24 characters, or a value whose text is longer than
    13, is written in full and makes its field as wide as itself.  The
    object is not changed. *)
Theorem printAllTime_table (M : Machine) :
  let es := entries (timer (this M)) in
  let w := match es with [] => os_width (cout M) | _ => 0 end in
  let M' := printAllTime M in
  os_text (cout M') =
    os_text (cout M) +:+ newline +:+ table_rows es +:+
    pad w rule +:+ newline +:+
    pad 24 "TOTAL" +:+ pad 13 (num_put true 4 (sum_values es)) +:+ newline ∧
  (∀ kv, table_row kv =
         pad 24 kv.1 +:+ pad 13 (num_put true 4 kv.2) +:+ newline) ∧
  (∀ k v, (k, v) ∈ es ↔ timer (this M) !! k = Some v) ∧
  NoDup es.*1 ∧
  StronglySorted key_lt es ∧
  sum_values es = foldl (λ t v, (t + v)%float) 0%float es.*2 ∧
  (∀ s, String.length (pad 24 s) = 24 `max` String.length s ∧
        String.length (pad 13 s) = 13 `max` String.length s ∧
        ∃ blanks, pad 24 s = fill blanks +:+ s) ∧
  (∀ n s, pad n s = fill (n - String.length s) +:+ s ∧
          ((String.length s ≤ n)%nat → String.length (pad n s) = n) ∧
          ((n ≤ String.length s)%nat → pad n s = s)) ∧
  this M' = this M.
Proof.
  intros es w M'. subst M'. rewrite printAllTime_spec. simpl. fold es.
  split_and!; try done.
  - intros k v. apply elem_of_entries.
  - apply NoDup_fst_entries.
  - apply entries_StronglySorted.
  - unfold sum_values. by rewrite foldl_fmap.
  - intros s. rewrite !length_pad. split_and!; try done. by eexists.
  - intros n s. split_and!; [done| |apply pad_ge].
    intros Hn. rewrite length_pad. lia.
Qed.

(** C9. [printTime(e)] and [printMemory(e)] are not read-only: for a key
    that is not in the map, the lookup that fetches the value to print
    inserts the key with the value zero, so the map has one key more
    after the query.  The line printed shows that zero. *)
Theorem print_inserts_key (e : string) (M : Machine) :
  (timer (this M) !! e = None →
   let M' := printTime e M in
   timer (this M') = <[e := 0%float]> (timer (this M)) ∧
   timer (this M') !! e = Some 0%float ∧
   dom (timer (this M')) = {[e]} ∪ dom (timer (this M)) ∧
   (e ∉ dom (timer (this M))) ∧
   size (timer (this M')) = S (size (timer (this M))) ∧
   cout M' = (cout M << put_str e << put_str " : " << put_double 0%float
                     << endl)) ∧
  (memory (this M) !! e = None →
   let M' := printMemory e M in
   memory (this M') = <[e := 0%float]> (memory (this M)) ∧
   memory (this M') !! e = Some 0%float ∧
   dom (memory (this M')) = {[e]} ∪ dom (memory (this M)) ∧
   (e ∉ dom (memory (this M))) ∧
   size (memory (this M')) = S (size (memory (this M))) ∧
   cout M' = (cout M << put_str e << put_str " : " << put_double 0%float
                     << endl)).
Proof.
  split; intros Hnone M'; subst M'.
  - unfold printTime. rewrite (subscript_absent _ _ Hnone).
    cbn [this cout timer with_timer]. split_and!; try done.
    + apply lookup_insert_eq.
    + apply dom_insert_L.
    + by apply not_elem_of_dom.
    + by apply map_size_insert_None.
  - unfold printMemory. rewrite (subscript_absent _ _ Hnone).
    cbn [this cout memory with_memory]. split_and!; try done.
    + apply lookup_insert_eq.
    + apply dom_insert_L.
    + by apply not_elem_of_dom.
    + by apply map_size_insert_None.
Qed.

(** C10. The flag [printNow] has no effect: two runs of the same calls
    from states that differ only in [printNow] end with the same four
    maps, the same three files and the same console, also after the
    destructor.  No method reads the flag; the constructor that opens the
    files sets it to [false]. *)
Theorem printNow_no_effect (cs : list call) (M : Machine) (b : bool) :
  let M_b := on_this (with_printNow b) M in
  observable (run M_b cs) = observable (run M cs) ∧
  observable (on_this Logger_destroy (run M_b cs)) =
    observable (on_this Logger_destroy (run M cs)) ∧
  (∀ folder can_open, printNow (Logger_open folder can_open) = false).
Proof.
  intros M_b.
  assert (observable (run M_b cs) = observable (run M cs)) as Hrun
    by (by apply run_observable).
  split_and!; try done.
  revert Hrun. generalize (run M_b cs) (run M cs).
  intros [[f1 s1 l1 t1 tm1 ts1 m1 p1] c1] [[f2 s2 l2 t2 tm2 ts2 m2 p2] c2].
  unfold observable. cbn [this cout file stepFile legendFile tic timer
                          timeStep memory].
  by intros [= -> -> -> -> -> -> -> ->].
Qed.

(** ** Further properties of the methods *)

(** [printAllTime()] leaves [std::cout] in fixed notation with precision
    4: the manipulators are sticky, so a [printTime(e)] that follows prints
    the value with 4 decimals. *)
Theorem printAllTime_leaves_fixed (e : string) (M : Machine) :
  let c := cout (printAllTime M) in
  os_fixed c = true ∧ os_precision c = 4 ∧ os_width c = 0 ∧
  os_text (cout (printTime e (printAllTime M))) =
    os_text c +:+ e +:+ " : " +:+
    num_put true 4 (default 0%float (timer (this M) !! e)) +:+ newline.
Proof.
  intros c. subst c. rewrite printTime_spec. cbn [cout].
  rewrite put_line_text. by rewrite printAllTime_spec.
Qed.

(** [startTimer(event)] records the clock value for the event and touches
    nothing else; a second call before any [stopTimer] replaces the first
    start time. *)
Theorem startTimer_last_wins (event : string) (tv1 tv2 : timeval) (L : Logger) :
  tic (startTimer event tv1 L) = <[event := get_time tv1]> (tic L) ∧
  tic (startTimer event tv1 L) !! event = Some (get_time tv1) ∧
  startTimer event tv2 (startTimer event tv1 L) = startTimer event tv2 L ∧
  startTimer event tv1 L = with_tic (tic (startTimer event tv1 L)) L.
Proof.
  unfold startTimer. cbn [tic with_tic]. rewrite !assign_insert.
  split_and!; try done.
  - apply lookup_insert_eq.
  - unfold with_tic. cbn. by rewrite insert_insert_eq.
Qed.

(** [resetTimeStep()] sets the value of every key of [timeStep] to zero,
    keeps the keys, and touches nothing else. *)
Theorem resetTimeStep_zeroes (L : Logger) :
  let L' := resetTimeStep L in
  dom (timeStep L') = dom (timeStep L) ∧
  (∀ k, timeStep L' !! k = (λ _, 0%float) <$> timeStep L !! k) ∧
  entries (timeStep L') = (λ kv, (kv.1, 0%float)) <$> entries (timeStep L) ∧
  L' = with_timeStep (timeStep L') L.
Proof.
  intros L'. assert (timeStep L' = zero_all (timeStep L)) as Ht by done.
  rewrite Ht. split_and!; try done.
  - apply dom_zero_all.
  - intros k. by rewrite zero_all_fmap, lookup_fmap.
  - apply entries_zero_all.
Qed.

(** [writeTime()] sends to the aggregate-time file one line
    ["<event> <value>"] per key of [timer], in key order, and touches
    nothing else. *)
Theorem writeTime_lines (L : Logger) :
  let es := entries (timer L) in
  file (writeTime L) = ofs_put (time_lines es) (file L) ∧
  ofs_text (file (writeTime L)) =
    (if ofs_open (file L) then ofs_text (file L) +:+ time_lines es
     else ofs_text (file L)) ∧
  (∀ k v, (k, v) ∈ es ↔ timer L !! k = Some v) ∧
  StronglySorted key_lt es ∧
  writeTime L = with_files (file (writeTime L)) (stepFile L) (legendFile L) L.
Proof.
  intros es. rewrite writeTime_spec. cbn [file with_files]. fold es.
  split_and!; try done.
  - apply ofs_put_text.
  - intros k v. apply elem_of_entries.
  - apply entries_StronglySorted.
Qed.

(** A span from [startTimer] to [stopTimer] adds the difference of the
    two clock values to the total and to the per-step time, whatever
    start time the event had before.  [stopTimer] does not clear the
    start time: a second [stopTimer] with no [startTimer] in between adds
    the time since the same start once more. *)
Theorem start_stop_elapsed (event : string) (print : bool)
    (t1 t2 t3 : timeval) (M : Machine) :
  let M1 := on_this (startTimer event t1) M in
  let M2 := stopTimer event print t2 M1 in
  let M3 := stopTimer event false t3 M2 in
  let d2 := (get_time t2 - get_time t1)%float in
  let d3 := (get_time t3 - get_time t1)%float in
  timer (this M2) !! event =
    Some (default 0 (timer (this M) !! event) + d2)%float ∧
  timeStep (this M2) !! event =
    Some (default 0 (timeStep (this M) !! event) + d2)%float ∧
  tic (this M2) !! event = Some (get_time t1) ∧
  timer (this M3) !! event =
    Some (default 0 (timer (this M) !! event) + d2 + d3)%float ∧
  timeStep (this M3) !! event =
    Some (default 0 (timeStep (this M) !! event) + d2 + d3)%float.
Proof.
  intros M1 M2 M3 d2 d3.
  assert (tic (this M1) !! event = Some (get_time t1)) as Htic1.
  { subst M1. unfold on_this, startTimer. cbn [this tic with_tic].
    rewrite assign_insert. apply lookup_insert_eq. }
  assert (timer (this M1) = timer (this M) ∧
          timeStep (this M1) = timeStep (this M)) as [Htm1 Hts1] by done.
  assert (tic (this M2) !! event = Some (get_time t1)) as Htic2.
  { subst M2. rewrite stopTimer_spec. cbn [this tic with_tic with_timer
      with_timeStep]. by rewrite subscript_lookup, Htic1. }
  assert (timer (this M2) !! event =
          Some (default 0 (timer (this M) !! event) + d2)%float) as Htm2.
  { subst M2. rewrite stopTimer_spec. cbn [this timer with_timer].
    by rewrite lookup_insert_eq, Htic1, Htm1. }
  assert (timeStep (this M2) !! event =
          Some (default 0 (timeStep (this M) !! event) + d2)%float) as Hts2.
  { subst M2. rewrite stopTimer_spec.
    cbn [this timeStep with_timer with_timeStep].
    by rewrite lookup_insert_eq, Htic1, Hts1. }
  split_and!; try done.
  - subst M3. rewrite stopTimer_spec. cbn [this timer with_timer].
    by rewrite lookup_insert_eq, Htic2, Htm2.
  - subst M3. rewrite stopTimer_spec.
    cbn [this timeStep with_timer with_timeStep].
    by rewrite lookup_insert_eq, Htic2, Hts2.
Qed.

(** The class only ever appends to its outputs: after any run each of the
    three files is the same file, open as before, with its earlier text
    as a prefix of its text, and the console text has its earlier text as
    a prefix. *)
Theorem outputs_append_only (cs : list call) (M : Machine) :
  let M' := run M cs in
  ofs_extends (file (this M)) (file (this M')) ∧
  ofs_extends (stepFile (this M)) (stepFile (this M')) ∧
  ofs_extends (legendFile (this M)) (legendFile (this M')) ∧
  os_extends (cout M) (cout M').
Proof.
  intros M'. subst M'.
  apply (run_invariant_all
           (λ M', ofs_extends (file (this M)) (file (this M')) ∧
                  ofs_extends (stepFile (this M)) (stepFile (this M')) ∧
                  ofs_extends (legendFile (this M)) (legendFile (this M')) ∧
                  os_extends (cout M) (cout M'))).
  - intros M1 c (Hf & Hs & Hl & Hc).
    destruct (step_outputs_extend M1 c) as (Hf' & Hs' & Hl' & Hc').
    split_and!; by (eapply ofs_extends_trans || eapply os_extends_trans).
  - split_and!; apply ofs_extends_refl || apply os_extends_refl.
Qed.

(** A file that is not open is never changed: no run writes to it or
    opens it.  An object made by the default constructor leaves its three
    streams as they were made, through any run and its destruction. *)
Theorem closed_file_never_written (cs : list call) (M : Machine) :
  (ofs_open (file (this M)) = false →
   file (this (run M cs)) = file (this M)) ∧
  (ofs_open (stepFile (this M)) = false →
   stepFile (this (run M cs)) = stepFile (this M)) ∧
  (ofs_open (legendFile (this M)) = false →
   legendFile (this (run M cs)) = legendFile (this M)) ∧
  (∀ (b : bool) (c0 : ostream),
     let L := Logger_destroy
                (this (run {| this := Logger_default b; cout := c0 |} cs)) in
     (file L, stepFile L, legendFile L) = (ofs_new, ofs_new, ofs_new)).
Proof.
  assert (∀ M0,
    (ofs_open (file (this M0)) = false →
     file (this (run M0 cs)) = file (this M0)) ∧
    (ofs_open (stepFile (this M0)) = false →
     stepFile (this (run M0 cs)) = stepFile (this M0)) ∧
    (ofs_open (legendFile (this M0)) = false →
     legendFile (this (run M0 cs)) = legendFile (this M0))) as Hrun.
  { intros M0. split_and!; intros Hclosed.
    - apply (run_invariant_all (λ M', file (this M') = file (this M0)));
        [|done].
      intros M1 c HM1. destruct (step_closed_files M1 c) as (Hf & _).
      rewrite Hf; [done|]. by rewrite HM1.
    - apply (run_invariant_all
               (λ M', stepFile (this M') = stepFile (this M0))); [|done].
      intros M1 c HM1. destruct (step_closed_files M1 c) as (_ & Hs & _).
      rewrite Hs; [done|]. by rewrite HM1.
    - apply (run_invariant_all
               (λ M', legendFile (this M') = legendFile (this M0))); [|done].
      intros M1 c HM1. destruct (step_closed_files M1 c) as (_ & _ & Hl).
      rewrite Hl; [done|]. by rewrite HM1. }
  destruct (Hrun M) as (Hf & Hs & Hl). split_and!; try done.
  intros b c0 L. subst L.
  destruct (Hrun {| this := Logger_default b; cout := c0 |}) as (Hf0 & Hs0 & Hl0).
  unfold Logger_destroy. rewrite writeLegend_spec.
  cbn [file stepFile legendFile with_files].
  rewrite Hf0, Hs0, Hl0 by done. done.
Qed.

(** Keys persist: no run removes a key from [tic], [timeStep] or
    [memory], and none removes a key from [timer] unless it calls
    [eraseTimer]. *)
Theorem keys_persist (cs : list call) (M : Machine) :
  let M' := run M cs in
  dom (tic (this M)) ⊆ dom (tic (this M')) ∧
  dom (timeStep (this M)) ⊆ dom (timeStep (this M')) ∧
  dom (memory (this M)) ⊆ dom (memory (this M')) ∧
  (forallb (λ c, negb (erases c)) cs = true →
   dom (timer (this M)) ⊆ dom (timer (this M'))).
Proof.
  intros M'. subst M'. split_and!.
  - apply (run_invariant_all
             (λ M', dom (tic (this M)) ⊆ dom (tic (this M')))); [|done].
    intros M1 c HM1. destruct (step_dom_mono M1 c) as (Ht & _).
    by etrans.
  - apply (run_invariant_all
             (λ M', dom (timeStep (this M)) ⊆ dom (timeStep (this M'))));
      [|done].
    intros M1 c HM1. destruct (step_dom_mono M1 c) as (_ & Ht & _).
    by etrans.
  - apply (run_invariant_all
             (λ M', dom (memory (this M)) ⊆ dom (memory (this M'))));
      [|done].
    intros M1 c HM1. destruct (step_dom_mono M1 c) as (_ & _ & Ht & _).
    by etrans.
  - intros Hcs.
    apply (run_invariant
             (λ M', dom (timer (this M)) ⊆ dom (timer (this M')))
             (λ c, negb (erases c))); [|done|done].
    intros M1 c Hc HM1. destruct (step_dom_mono M1 c) as (_ & _ & _ & Ht).
    etrans; [done|]. by apply Ht, negb_true_iff.
Qed.

(** In a run from a new object that calls neither [eraseTimer] nor
    [printTime], [timer] and [timeStep] have the same keys, visited in the
    same order: the names of the legend that the destructor writes are
    the events of the columns of a line of the per-step file, one name
    per column and in the order of the columns. *)
Theorem legend_matches_columns (L0 : Logger) (c0 : ostream) (cs : list call) :
  constructed L0 →
  forallb (λ c, negb (erases c) && negb (prints_time c)) cs = true →
  let L := this (run {| this := L0; cout := c0 |} cs) in
  dom (timer L) = dom (timeStep L) ∧
  (entries (timer L)).*1 = (entries (timeStep L)).*1 ∧
  length (entries (timer L)) = length (entries (timeStep L)) ∧
  legendFile (Logger_destroy L) =
    ofs_close (ofs_put (lines (entries (timeStep L)).*1) (legendFile L)).
Proof.
  intros HL0 Hcs L.
  assert (dom (timer L) = dom (timeStep L)) as Hdom.
  { subst L.
    apply (run_invariant
             (λ M, dom (timer (this M)) = dom (timeStep (this M)))
             (λ c, negb (erases c) && negb (prints_time c))); [|done|].
    - intros M c [He Hp]%andb_prop HM.
      apply negb_true_iff in He, Hp. by apply step_timer_timeStep_dom.
    - by destruct HL0. }
  pose proof (entries_keys_dom _ _ Hdom) as Hkeys.
  split_and!; try done.
  - by rewrite !length_entries, <- !size_dom, Hdom.
  - unfold Logger_destroy. rewrite writeLegend_spec.
    cbn [legendFile with_files]. by rewrite Hkeys.
Qed.

(** [eraseTimer] is one-sided.  After [eraseTimer(e)] the next
    [stopTimer(e)] starts the total again from zero while the per-step
    time goes on from its value; erasing an event that has no total
    changes nothing; and an event with a per-step time keeps its column
    in the per-step file but loses its name in the legend. *)
Theorem eraseTimer_restarts_total (e : string) (print : bool) (tv : timeval)
    (M : Machine) :
  let M1 := on_this (eraseTimer e) M in
  let M2 := stopTimer e print tv M1 in
  let delta := (get_time tv - default 0 (tic (this M) !! e))%float in
  timer (this M2) !! e = Some (0 + delta)%float ∧
  timeStep (this M2) !! e =
    Some (default 0 (timeStep (this M) !! e) + delta)%float ∧
  (timer (this M) !! e = None → M1 = M) ∧
  (e ∈ dom (timeStep (this M)) →
   e ∈ (entries (timeStep (this M1))).*1 ∧ e ∉ (entries (timer (this M1))).*1).
Proof.
  intros M1 M2 delta. split_and!.
  - subst M2. rewrite stopTimer_spec. cbn [this timer with_timer].
    rewrite lookup_insert_eq. subst M1. unfold on_this, eraseTimer.
    cbn [this timer tic with_timer]. by rewrite lookup_delete_eq.
  - subst M2. rewrite stopTimer_spec.
    cbn [this timeStep with_timer with_timeStep].
    by rewrite lookup_insert_eq.
  - intros Hnone. subst M1. unfold on_this, eraseTimer.
    rewrite delete_id by done. rewrite with_timer_id. by destruct M.
  - intros He. split.
    + by apply elem_of_fst_entries.
    + apply entries_delete_notin.
Qed.

(** The legend is written once more by the destructor: after an explicit
    [writeLegend()] the legend file of an open object holds the list of
    names twice. *)
Theorem writeLegend_then_destroy (L : Logger) :
  ofs_open (legendFile L) = true →
  let names := lines (entries (timer L)).*1 in
  ofs_text (legendFile (writeLegend L)) = ofs_text (legendFile L) +:+ names ∧
  ofs_text (legendFile (Logger_destroy (writeLegend L))) =
    ofs_text (legendFile L) +:+ names +:+ names.
Proof.
  intros Hopen names. unfold Logger_destroy. rewrite !writeLegend_spec.
  cbn [legendFile timer with_files ofs_close ofs_text]. fold names.
  by rewrite !ofs_put_text, ofs_put_open, Hopen, app_assoc.
Qed.

(** For an event that is in the map, [printTime] and [printMemory] are
    read-only: the object is left as it was and the line shows the stored
    value. *)
Theorem print_present_read_only (e : string) (v : double) (M : Machine) :
  (timer (this M) !! e = Some v →
   this (printTime e M) = this M ∧
   os_text (cout (printTime e M)) =
     os_text (cout M) +:+ pad (os_width (cout M)) e +:+ " : " +:+
     num_put (os_fixed (cout M)) (os_precision (cout M)) v +:+ newline) ∧
  (memory (this M) !! e = Some v →
   this (printMemory e M) = this M ∧
   os_text (cout (printMemory e M)) =
     os_text (cout M) +:+ pad (os_width (cout M)) e +:+ " : " +:+
     num_put (os_fixed (cout M)) (os_precision (cout M)) v +:+ newline).
Proof.
  split; intros Hv.
  - rewrite printTime_spec. cbn [this cout].
    rewrite (subscript_present _ _ _ Hv), Hv. cbn [snd default].
    split; [apply with_timer_id|apply put_line_text].
  - rewrite printMemory_spec. cbn [this cout].
    rewrite (subscript_present _ _ _ Hv), Hv. cbn [snd default].
    split; [apply with_memory_id|apply put_line_text].
Qed.

(** The memory of different events is counted independently: updates of
    two different events can be made in either order. *)
Theorem memory_updates_commute (e1 e2 : string) (a b : double) (L : Logger) :
  e1 ≠ e2 →
  allocMemory e1 a (allocMemory e2 b L) = allocMemory e2 b (allocMemory e1 a L) ∧
  allocMemory e1 a (freeMemory e2 b L) = freeMemory e2 b (allocMemory e1 a L) ∧
  freeMemory e1 a (freeMemory e2 b L) = freeMemory e2 b (freeMemory e1 a L) ∧
  memory (allocMemory e1 a L) !! e2 = memory L !! e2 ∧
  memory (freeMemory e1 a L) !! e2 = memory L !! e2.
Proof.
  intros Hne. unfold allocMemory, freeMemory. cbn [memory with_memory].
  rewrite !add_assign_insert, !sub_assign_insert.
  rewrite !lookup_insert_ne by done.
  split_and!; try done; unfold with_memory; cbn; f_equal;
    by apply insert_insert_ne.
Qed.

(** The per-step time of an event timed once after [resetTimeStep()] is
    the time of that span: [0 + (t2 - t1)], the same value as [t2 - t1].
    The other events of the step stay at zero, and the total of the event
    goes on from its value. *)
Theorem step_time_after_reset (e : string) (print : bool) (t1 t2 : timeval)
    (L : Logger) (c : ostream) :
  let M := {| this := resetTimeStep L; cout := c |} in
  let M' := stopTimer e print t2 (on_this (startTimer e t1) M) in
  let d := (get_time t2 - get_time t1)%float in
  timeStep (this M') !! e = Some (0 + d)%float ∧
  same_value (0 + d)%float d ∧
  (∀ k, k ≠ e → k ∈ dom (timeStep L) → timeStep (this M') !! k = Some 0%float) ∧
  timer (this M') !! e = Some (default 0 (timer L !! e) + d)%float.
Proof.
  intros M M' d.
  assert (default 0%float (timeStep (resetTimeStep L) !! e) = 0%float) as Hz.
  { unfold resetTimeStep. cbn [timeStep with_timeStep].
    rewrite zero_all_fmap, lookup_fmap. by destruct (timeStep L !! e). }
  subst M'. rewrite stopTimer_spec. unfold on_this, startTimer.
  cbn [this tic timer timeStep with_tic with_timer with_timeStep].
  rewrite assign_insert, !lookup_insert_eq. cbn [default]. fold d.
  subst M. cbn [this]. rewrite Hz.
  split_and!; try done.
  - apply double_zero_add_same.
  - intros k Hk [v Hv]%elem_of_dom. rewrite lookup_insert_ne by done.
    unfold resetTimeStep. cbn [timeStep with_timeStep].
    by rewrite zero_all_fmap, lookup_fmap, Hv.
Qed.

(** The console gets nothing that was not asked for: a run without
    [printTime], [printMemory], [printAllTime] and with [stopTimer] only
    with [print] unset leaves [std::cout] as it was, format and text. *)
Theorem silent_run (cs : list call) (M : Machine) :
  forallb quiet cs = true → cout (run M cs) = cout M.
Proof.
  intros Hcs.
  apply (run_invariant (λ M', cout M' = cout M) quiet); [|done|done].
  intros M1 c Hc HM1. by rewrite step_quiet.
Qed.

(** What a run cannot touch: a run of output methods only
    ([printAllTime], [writeLegend], [writeTime], [writeTimeStep]) leaves
    the four maps and the flag as they were, and a run without
    [allocMemory], [freeMemory] and [printMemory] leaves [memory] as it
    was. *)
Theorem run_frames (cs : list call) (M : Machine) :
  (forallb output_only cs = true →
   let L' := this (run M cs) in
   (tic L', timer L', timeStep L', memory L', printNow L') =
   (tic (this M), timer (this M), timeStep (this M), memory (this M),
    printNow (this M))) ∧
  (forallb (λ c, negb (on_memory c)) cs = true →
   memory (this (run M cs)) = memory (this M)).
Proof.
  split; intros Hcs.
  - apply (run_invariant
             (λ M', (tic (this M'), timer (this M'), timeStep (this M'),
                     memory (this M'), printNow (this M')) =
                    (tic (this M), timer (this M), timeStep (this M),
                     memory (this M), printNow (this M)))
             output_only); [|done|done].
    intros M1 c Hc HM1. by rewrite step_output_only.
  - apply (run_invariant (λ M', memory (this M') = memory (this M))
             (λ c, negb (on_memory c))); [|done|done].
    intros M1 c Hc%negb_true_iff HM1. by rewrite step_memory.
Qed.

(** The outputs of an object with no event: the table is the empty line,
    the rule and the row of a total of zero; a line of the per-step file
    is the step number and a tab; [writeTime()] and [writeLegend()] write
    nothing; and the destructor leaves the legend file with the text it
    had. *)
Theorem outputs_without_events (L : Logger) (c : ostream) (n : Z) :
  timer L = ∅ → timeStep L = ∅ →
  os_text (cout (printAllTime {| this := L; cout := c |})) =
    os_text c +:+ newline +:+ pad (os_width c) rule +:+ newline +:+
    pad 24 "TOTAL" +:+ pad 13 (num_put true 4 0%float) +:+ newline ∧
  stepFile (writeTimeStep n L) =
    ofs_put (pretty n +:+ tab +:+ newline) (stepFile L) ∧
  writeTime L = L ∧
  writeLegend L = L ∧
  ofs_text (legendFile (Logger_destroy L)) = ofs_text (legendFile L).
Proof.
  intros Htm Hts.
  rewrite printAllTime_spec, writeTimeStep_spec, writeTime_spec.
  unfold Logger_destroy. rewrite !writeLegend_spec.
  cbn [this cout os_text stepFile legendFile with_files ofs_close ofs_text].
  rewrite Htm, Hts, entries_empty. cbn.
  rewrite !ofs_put_nil. split_and!; try done; apply with_files_id.
Qed.

(** The events are timed independently: [startTimer(e)] and
    [stopTimer(e)] leave the entries of every other event as they are in
    all four maps, so spans of different events may nest or overlap. *)
Theorem timers_independent (e e' : string) (print : bool) (tv : timeval)
    (M : Machine) :
  e' ≠ e →
  let L := this M in
  let L1 := startTimer e tv L in
  let L2 := this (stopTimer e print tv M) in
  (tic L1 !! e', timer L1 !! e', timeStep L1 !! e', memory L1 !! e') =
    (tic L !! e', timer L !! e', timeStep L !! e', memory L !! e') ∧
  (tic L2 !! e', timer L2 !! e', timeStep L2 !! e', memory L2 !! e') =
    (tic L !! e', timer L !! e', timeStep L !! e', memory L !! e').
Proof.
  intros Hne L L1 L2. subst L1 L2. rewrite stopTimer_spec.
  unfold startTimer.
  cbn [this tic timer timeStep memory with_tic with_timer with_timeStep].
  rewrite assign_insert, subscript_lookup_ne by done.
  by rewrite !lookup_insert_ne.
Qed.

(** The columns of the per-step file are stable: a run in which
    [stopTimer] is only called for events that already have a per-step
    time leaves the keys of [timeStep], hence the number and the order of
    the columns, as they were.  The first [stopTimer] of a new event adds
    one column. *)
Theorem columns_stable (cs : list call) (M : Machine) :
  (forallb (stops_known (timeStep (this M))) cs = true →
   (entries (timeStep (this (run M cs)))).*1 = (entries (timeStep (this M))).*1) ∧
  (∀ e print tv,
     e ∉ dom (timeStep (this M)) →
     let M' := stopTimer e print tv M in
     length (entries (timeStep (this M'))) =
       S (length (entries (timeStep (this M)))) ∧
     e ∈ (entries (timeStep (this M'))).*1).
Proof.
  split.
  - intros Hcs. apply entries_keys_dom.
    apply (run_invariant
             (λ M', dom (timeStep (this M')) = dom (timeStep (this M)))
             (stops_known (timeStep (this M)))); [|done|done].
    intros M1 c Hc HM1. revert Hc.
    step_cases c; intros Hc;
      rewrite ?dom_insert_L, ?dom_zero_all, ?HM1; try done.
    cbn [stops_known] in Hc. apply bool_decide_eq_true in Hc.
    by apply subseteq_union_1_L, singleton_subseteq_l.
  - intros e print tv He M'. subst M'. rewrite stopTimer_spec.
    cbn [this timeStep with_timer with_timeStep].
    apply not_elem_of_dom in He. split.
    + rewrite !length_entries. by apply map_size_insert_None.
    + apply elem_of_fst_entries. rewrite dom_insert_L.
      apply elem_of_union_l. by apply elem_of_singleton.
Qed.

End Specification.

(** A run on concrete inputs: the event ["solve"] is stopped without ever
    being started. *)
Lemma stopTimer_never_started_witness :
  let L0 := Logger_open "case" (λ _, true) in
  let c0 := cout0 in
  let cs := [StartTimer "assemble" {| tv_sec := 1700000000; tv_usec := 250000 |};
             AllocMemory "solve" 100%float] in
  let tv := {| tv_sec := 1700000001; tv_usec := 500000 |} in
  let M := @run sample_num_put {| this := L0; cout := c0 |} cs in
  let M' := @stopTimer sample_num_put "solve" true tv M in
  constructed L0 ∧ never_started "solve" cs = true ∧
  timer (this M') !! "solve" = Some (0 + (get_time tv - 0))%float ∧
  (get_time tv - 0)%float = get_time tv.
Proof.
  intros L0 c0 cs tv M M'.
  assert (constructed L0) as HL0 by constructor.
  assert (never_started "solve" cs = true) as Hcs by reflexivity.
  split; [done|]. split; [done|].
  destruct (@stopTimer_never_started sample_num_put L0 c0 cs "solve" true tv
              HL0 Hcs) as (_ & Ht & _ & Hd & _).
  split; [exact Ht|exact Hd].
Defined.

(** The example of the specification: step 5 with the per-step times
    [{A: 1.25, B: 2.5}], entered here in the other order. *)
Example writeTimeStep_example :
  let L := with_timeStep (<["B" := 2.5%float]> (<["A" := 1.25%float]> ∅))
             (Logger_open "case" (λ _, true)) in
  ofs_text (stepFile (@writeTimeStep sample_num_put 5 L)) =
  "5" +:+ tab +:+ "1.25" +:+ tab +:+ "2.5" +:+ tab +:+ newline.
Proof. vm_compute. reflexivity. Qed.

(** The destructor after a run that times two events and never calls
    [writeLegend]: the legend file lists them. *)
Lemma destroy_writes_legend_witness :
  let cs := [StartTimer "solve" {| tv_sec := 10; tv_usec := 0 |};
             StopTimer "solve" false {| tv_sec := 12; tv_usec := 500000 |};
             StartTimer "assemble" {| tv_sec := 13; tv_usec := 0 |};
             StopTimer "assemble" false {| tv_sec := 14; tv_usec := 250000 |}] in
  let M := @run sample_num_put
             {| this := Logger_open "case" (λ _, true); cout := cout0 |} cs in
  no_writeLegend cs = true ∧
  ofs_text (legendFile (Logger_destroy (this M))) =
    "assemble" +:+ newline +:+ "solve" +:+ newline.
Proof.
  intros cs M. split; [reflexivity|].
  destruct (@destroy_writes_legend sample_num_put (this M)) as (_ & _ & _ & _ & Hrun).
  rewrite (Hrun "case" (λ _, true) cout0 cs eq_refl eq_refl eq_refl).
  vm_compute. reflexivity.
Defined.

(** The example of the specification: 100 allocated and 40 freed for a
    new event. *)
Lemma alloc_then_free_witness :
  let L := Logger_open "case" (λ _, true) in
  (default 0 (memory L !! "mesh") =? 0)%float = true ∧
  memory (freeMemory "mesh" 40 (allocMemory "mesh" 100 L)) !! "mesh" =
    Some 60%float.
Proof.
  intros L. assert ((default 0 (memory L !! "mesh") =? 0)%float = true) as Hz
    by reflexivity.
  split; [exact Hz|].
  destruct (alloc_then_free "mesh" 100 40 L Hz) as (Hv & _). exact Hv.
Defined.

(** Asking for the time of an event that was never timed creates it. *)
Lemma print_inserts_key_witness :
  let M := {| this := Logger_open "case" (λ _, true); cout := cout0 |} in
  timer (this M) !! "solve" = None ∧
  dom (timer (this (@printTime sample_num_put "solve" M))) = {["solve"]} ∧
  os_text (cout (@printTime sample_num_put "solve" M)) =
    "solve : 0" +:+ newline.
Proof.
  intros M. assert (timer (this M) !! "solve" = None) as Hnone by reflexivity.
  split; [exact Hnone|].
  destruct (@print_inserts_key sample_num_put "solve" M) as [Ht _].
  destruct (Ht Hnone) as (_ & _ & Hdom & _ & _ & Hcout).
  split.
  - rewrite Hdom. vm_compute. reflexivity.
  - rewrite Hcout. vm_compute. reflexivity.
Defined.

(** The table of two timed events, and the table after [resetTimer()]. *)
Example printAllTime_example :
  let L := with_timer (<["solve" := 2.5%float]> (<["assemble" := 1.25%float]> ∅))
             (Logger_open "case" (λ _, true)) in
  os_text (cout (@printAllTime sample_num_put {| this := L; cout := cout0 |})) =
    newline +:+
    "                assemble       1.2500" +:+ newline +:+
    "                   solve       2.5000" +:+ newline +:+
    "-------------------------------------" +:+ newline +:+
    "                   TOTAL       3.7500" +:+ newline ∧
  os_text (cout (@printAllTime sample_num_put
                   {| this := resetTimer L; cout := cout0 |})) =
    newline +:+
    "                assemble       0.0000" +:+ newline +:+
    "                   solve       0.0000" +:+ newline +:+
    "-------------------------------------" +:+ newline +:+
    "                   TOTAL       0.0000" +:+ newline.
Proof. split; vm_compute; reflexivity. Qed.

(** A timed span on the clock: started at 10 s, stopped at 12.5 s. *)
Example stopTimer_example :
  let M := {| this := Logger_open "case" (λ _, true); cout := cout0 |} in
  let M' := @run sample_num_put M
              [StartTimer "solve" {| tv_sec := 10; tv_usec := 0 |};
               StopTimer "solve" true {| tv_sec := 12; tv_usec := 500000 |}] in
  timer (this M') !! "solve" = Some 2.5%float ∧
  timeStep (this M') !! "solve" = Some 2.5%float ∧
  os_text (cout M') = "solve : 2.5" +:+ newline.
Proof. split_and!; vm_compute; reflexivity. Qed.

(** ** The further properties on concrete runs *)

Lemma closed_file_never_written_witness :
  let M := {| this := Logger_open "case" (λ _, false); cout := cout0 |} in
  ofs_open (file (this M)) = false ∧
  file (this (@run sample_num_put M sample_calls)) =
    ofs_open_path "case/time" false.
Proof.
  intros M. assert (ofs_open (file (this M)) = false) as Hc by reflexivity.
  split; [exact Hc|].
  destruct (@closed_file_never_written sample_num_put sample_calls M)
    as (Hf & _).
  exact (Hf Hc).
Defined.

Lemma keys_persist_witness :
  let cs := [ResetTimer; PrintTime "assemble"; StartTimer "solve"
               {| tv_sec := 20; tv_usec := 0 |}] in
  forallb (λ c, negb (erases c)) cs = true ∧
  dom (timer (this sample_machine)) ⊆
    dom (timer (this (@run sample_num_put sample_machine cs))).
Proof.
  intros cs.
  assert (forallb (λ c, negb (erases c)) cs = true) as Hcs by reflexivity.
  split; [exact Hcs|].
  destruct (@keys_persist sample_num_put cs sample_machine) as (_ & _ & _ & Ht).
  exact (Ht Hcs).
Defined.

Lemma legend_matches_columns_witness :
  let L0 := Logger_open "case" (λ _, true) in
  let L := this (@run sample_num_put {| this := L0; cout := cout0 |}
                   sample_calls) in
  constructed L0 ∧
  forallb (λ c, negb (erases c) && negb (prints_time c)) sample_calls = true ∧
  (entries (timer L)).*1 = (entries (timeStep L)).*1.
Proof.
  intros L0 L. assert (constructed L0) as HL0 by constructor.
  assert (forallb (λ c, negb (erases c) && negb (prints_time c)) sample_calls
          = true) as Hcs by reflexivity.
  split; [exact HL0|]. split; [exact Hcs|].
  destruct (@legend_matches_columns sample_num_put L0 cout0 sample_calls
              HL0 Hcs) as (_ & Hkeys & _).
  exact Hkeys.
Defined.

Lemma eraseTimer_restarts_total_witness :
  let M1 := on_this (eraseTimer "solve") sample_machine in
  "solve" ∈ dom (timeStep (this sample_machine)) ∧
  "solve" ∈ (entries (timeStep (this M1))).*1 ∧
  "solve" ∉ (entries (timer (this M1))).*1.
Proof.
  intros M1.
  assert ("solve" ∈ dom (timeStep (this sample_machine))) as Hin.
  { apply elem_of_dom. by eexists. }
  split; [exact Hin|].
  destruct (@eraseTimer_restarts_total sample_num_put "solve" false
              {| tv_sec := 20; tv_usec := 0 |} sample_machine)
    as (_ & _ & _ & He).
  exact (He Hin).
Defined.

Lemma writeLegend_then_destroy_witness :
  let L := this sample_machine in
  ofs_open (legendFile L) = true ∧
  ofs_text (legendFile (Logger_destroy (writeLegend L))) =
    "solve" +:+ newline +:+ "solve" +:+ newline.
Proof.
  intros L. assert (ofs_open (legendFile L) = true) as Hopen by reflexivity.
  split; [exact Hopen|].
  destruct (writeLegend_then_destroy L Hopen) as (_ & Ht).
  rewrite Ht. vm_compute. reflexivity.
Defined.

Lemma print_present_read_only_witness :
  timer (this sample_machine) !! "solve" = Some 2.5%float ∧
  this (@printTime sample_num_put "solve" sample_machine) =
    this sample_machine.
Proof.
  assert (timer (this sample_machine) !! "solve" = Some 2.5%float) as Hv
    by reflexivity.
  split; [exact Hv|].
  destruct (@print_present_read_only sample_num_put "solve" 2.5%float
              sample_machine) as (Ht & _).
  destruct (Ht Hv) as (Hthis & _). exact Hthis.
Defined.

Lemma memory_updates_commute_witness :
  let L := this sample_machine in
  "mesh" ≠ "matrix" ∧
  allocMemory "mesh" 100 (freeMemory "matrix" 40 L) =
    freeMemory "matrix" 40 (allocMemory "mesh" 100 L).
Proof.
  intros L. assert ("mesh" ≠ "matrix") as Hne by discriminate.
  split; [exact Hne|].
  destruct (memory_updates_commute "mesh" "matrix" 100 40 L Hne)
    as (_ & Hc & _).
  exact Hc.
Defined.

Lemma silent_run_witness :
  forallb quiet sample_calls = true ∧
  cout (@run sample_num_put sample_machine sample_calls) = cout0.
Proof.
  assert (forallb quiet sample_calls = true) as Hq by reflexivity.
  split; [exact Hq|].
  exact (@silent_run sample_num_put sample_calls sample_machine Hq).
Defined.

Lemma run_frames_witness :
  let cs := [PrintAllTime; WriteTime; WriteTimeStep 3; WriteLegend] in
  forallb output_only cs = true ∧
  timer (this (@run sample_num_put sample_machine cs)) =
    timer (this sample_machine).
Proof.
  intros cs. assert (forallb output_only cs = true) as Hcs by reflexivity.
  split; [exact Hcs|].
  destruct (@run_frames sample_num_put cs sample_machine) as (Ho & _).
  exact (f_equal (λ t : Event * Event * Event * Event * bool, t.1.1.1.2)
           (Ho Hcs)).
Defined.

Lemma outputs_without_events_witness :
  let L := Logger_open "case" (λ _, true) in
  timer L = ∅ ∧ timeStep L = ∅ ∧
  ofs_text (stepFile (@writeTimeStep sample_num_put 7 L)) =
    "7" +:+ tab +:+ newline.
Proof.
  intros L. assert (timer L = ∅) as Htm by reflexivity.
  assert (timeStep L = ∅) as Hts by reflexivity.
  split; [exact Htm|]. split; [exact Hts|].
  destruct (@outputs_without_events sample_num_put L cout0 7 Htm Hts)
    as (_ & Hs & _).
  rewrite Hs. vm_compute. reflexivity.
Defined.

Lemma timers_independent_witness :
  "assemble" ≠ "solve" ∧
  timer (this (@stopTimer sample_num_put "solve" false
                 {| tv_sec := 20; tv_usec := 0 |} sample_machine))
    !! "assemble" = None.
Proof.
  assert ("assemble" ≠ "solve") as Hne by discriminate.
  split; [exact Hne|].
  destruct (@timers_independent sample_num_put "solve" "assemble" false
              {| tv_sec := 20; tv_usec := 0 |} sample_machine Hne)
    as (_ & H2).
  exact (f_equal (λ t : option double * option double * option double *
                        option double, t.1.1.2) H2).
Defined.

Lemma columns_stable_witness :
  let cs := [StartTimer "solve" {| tv_sec := 20; tv_usec := 0 |};
             StopTimer "solve" false {| tv_sec := 21; tv_usec := 0 |};
             WriteTimeStep 2; ResetTimeStep] in
  forallb (stops_known (timeStep (this sample_machine))) cs = true ∧
  (entries (timeStep (this (@run sample_num_put sample_machine cs)))).*1 =
    (entries (timeStep (this sample_machine))).*1.
Proof.
  intros cs.
  assert (forallb (stops_known (timeStep (this sample_machine))) cs = true)
    as Hcs by (vm_compute; reflexivity).
  split; [exact Hcs|].
  destruct (@columns_stable sample_num_put cs sample_machine) as (Hst & _).
  exact (Hst Hcs).
Defined.

(** ** Where the specification says more than the code does *)

(** Against "[memory[e] == a - b] for every [a] and [b]": for a new event
    with [a] and [b] both infinite the entry is NaN, and so is [a - b];
    [==] does not hold between them. *)
Lemma alloc_then_free_counterexample :
  let L := Logger_open "case" (λ _, true) in
  let a := infinity in
  let b := infinity in
  (default 0 (memory L !! "mesh") =? 0)%float = true ∧
  memory (freeMemory "mesh" b (allocMemory "mesh" a L)) !! "mesh" = Some nan ∧
  (nan =? a - b)%float = false.
Proof. split_and!; vm_compute; reflexivity. Qed.

(** Against "the key in a 24-character column": a key of 33 characters is
    written in full, its field is 33 characters wide, and the row is 46
    characters long where a row of a 24- and a 13-character column has
    37. *)
Lemma printAllTime_table_counterexample :
  let key := "a_name_longer_than_the_24_columns" in
  let M := {| this := with_timer (<[key := 2.5%float]> ∅)
                        (Logger_open "case" (λ _, true));
              cout := cout0 |} in
  os_text (cout (@printAllTime sample_num_put M)) =
    newline +:+
    "a_name_longer_than_the_24_columns       2.5000" +:+ newline +:+
    "-------------------------------------" +:+ newline +:+
    "                   TOTAL       2.5000" +:+ newline ∧
  String.length (pad 24 key) = 33 ∧
  String.length (pad 24 key +:+ pad 13 (sample_num_put true 4 2.5%float)) = 46.
Proof. split_and!; vm_compute; reflexivity. Qed.
